(** * utils/retry.py: retry, wait_until, poll_until and the asyncio variants

    Shallow embeddings of the retry and polling helpers of the test
    framework, and the properties of its specification that concern them.

    The helpers are embedded twice.
    - The exact model, which comes first, has delays, timeouts and clock
      readings as rationals [Q].  It carries the properties in which
      rounding plays no part: which calls are made and how many at most,
      which faults propagate, what a run does that has no time or no
      attempt at all.
    - The module [Binary64] has them as IEEE 754 binary64 floats, which is
      what Python floats are, and models the evaluation of
      [func.__name__] and the refusals of [time.sleep].  It carries the
      properties that state a delay, a number of probes or a clock
      reading, or that depend on the warning being issued.

    Conventions of both.
    - The clock is the simulated clock of the specification: it only moves
      when the program sleeps, and a sleep of [d] seconds moves it by
      [d].
    - A Python callable handed to a helper (the wrapped operation, a
      predicate, a producer) is a script [nat -> Res X]: the outcome of its
      [j]-th invocation, counted over the whole run of the world.
    - Everything a helper does to its surroundings is appended to the
      world's [trace]. *)

From Stdlib Require Import ZArith QArith Qround Qpower List String Ascii
  DecimalString Bool Lia Lqa Sorted Permutation Floats.
Import ListNotations.

Open Scope Z_scope.

(** ** Exceptions *)

(** The exception classes the helpers meet, with the builtin hierarchy.
    [UserError name base] is a class defined by client code. *)
Inductive ExcClass : Type :=
| BaseException
| Exception
| KeyboardInterrupt
| CancelledError
| TypeError
| ValueError
| AssertionError
| RuntimeError
| OSError
| TimeoutError
| ConnectionError
| UserError (name : string) (base : ExcClass).

(** Method resolution order: the class followed by its ancestors. *)
Fixpoint mro (c : ExcClass) : list ExcClass :=
  match c with
  | BaseException => [BaseException]
  | Exception => [Exception; BaseException]
  | KeyboardInterrupt => [KeyboardInterrupt; BaseException]
  | CancelledError => [CancelledError; BaseException]
  | TypeError => [TypeError; Exception; BaseException]
  | ValueError => [ValueError; Exception; BaseException]
  | AssertionError => [AssertionError; Exception; BaseException]
  | RuntimeError => [RuntimeError; Exception; BaseException]
  | OSError => [OSError; Exception; BaseException]
  | TimeoutError => [TimeoutError; OSError; Exception; BaseException]
  | ConnectionError => [ConnectionError; OSError; Exception; BaseException]
  | UserError name base => UserError name base :: mro base
  end.

Fixpoint class_eqb (c d : ExcClass) : bool :=
  match c, d with
  | BaseException, BaseException => true
  | Exception, Exception => true
  | KeyboardInterrupt, KeyboardInterrupt => true
  | CancelledError, CancelledError => true
  | TypeError, TypeError => true
  | ValueError, ValueError => true
  | AssertionError, AssertionError => true
  | RuntimeError, RuntimeError => true
  | OSError, OSError => true
  | TimeoutError, TimeoutError => true
  | ConnectionError, ConnectionError => true
  | UserError n b, UserError n' b' => String.eqb n n' && class_eqb b b'
  | _, _ => false
  end.

Definition issubclass (c d : ExcClass) : bool :=
  existsb (class_eqb d) (mro c).

(** An exception instance: its class and the text it was built with. *)
Record Exn : Type := mkExn { exc_class : ExcClass; exc_msg : string }.

(** [except classes as exc]: does the clause catch [e]? *)
Definition isinstance (e : Exn) (classes : list ExcClass) : bool :=
  existsb (issubclass (exc_class e)) classes.

(** ** The world: clocks, call counter, trace *)

Inductive Event : Type :=
| EvCall
| EvWarning (attempt times : Z) (exc : Exn) (current_delay : Q)
| EvOnRetry (exc : Exn) (attempt : Z)
| EvSleep (seconds : Q).

Record World : Type := mkWorld {
  mono : Q;            (* time.monotonic(), also the event loop's time() *)
  wall : Q;            (* time.time(); no helper reads it *)
  calls : nat;         (* invocations of the scripted callable so far *)
  trace : list Event
}.

(** Outcome of running Python code: a value, a propagating exception, or
    no outcome at all (the fuel of a [while] loop ran out, or a callable
    never came back). *)
Inductive Res (X : Type) : Type :=
| Ok (x : X)
| Raise (e : Exn)
| Hang.
Arguments Ok {X} x.
Arguments Raise {X} e.
Arguments Hang {X}.

(** State is kept when an exception propagates, as in Python. *)
Definition M (X : Type) : Type := World -> Res X * World.

Definition ret {X} (x : X) : M X := fun w => (Ok x, w).

Definition raise {X} (e : Exn) : M X := fun w => (Raise e, w).

(** Out of fuel. *)
Definition hang {X} : M X := fun w => (Hang, w).

Definition bind {X Y} (m : M X) (k : X -> M Y) : M Y :=
  fun w =>
    match m w with
    | (Ok x, w') => k x w'
    | (Raise e, w') => (Raise e, w')
    | (Hang, w') => (Hang, w')
    end.

Declare Scope py_scope.
Delimit Scope py_scope with py.
Notation "x <- m ;; k" := (bind m (fun x => k))
  (at level 61, m at next level, right associativity) : py_scope.
Notation "m ;; k" := (bind m (fun _ => k))
  (at level 61, right associativity) : py_scope.

(** [try: body / except classes as exc: handler exc].  An exception of the
    handler itself is not caught. *)
Definition try_except {X} (body : M X) (classes : list ExcClass)
    (handler : Exn -> M X) : M X :=
  fun w =>
    match body w with
    | (Raise e, w') =>
        if isinstance e classes then handler e w' else (Raise e, w')
    | r => r
    end.

Definition log (ev : Event) : M unit :=
  fun w => (Ok tt, mkWorld (mono w) (wall w) (calls w) (trace w ++ [ev])).

(** Calling the scripted callable: the call is counted and traced, and its
    outcome is the script's entry for this call. *)
Definition invoke {X} (f : nat -> Res X) : M X :=
  fun w =>
    (f (S (calls w)),
     mkWorld (mono w) (wall w) (S (calls w)) (trace w ++ [EvCall])).

(** A call that does not touch the world (a pure predicate over a value,
    a callback whose effects are not observed). *)
Definition pure_call {X} (r : Res X) : M X := fun w => (r, w).

Definition Qltb (x y : Q) : bool :=
  (Qnum x * QDen y <? Qnum y * QDen x)%Z.

(** [time.monotonic()] *)
Definition monotonic : M Q := fun w => (Ok (mono w), w).

(** [time.sleep(seconds)]: refuses a negative length, otherwise both
    clocks move by [seconds]. *)
Definition sleep (seconds : Q) : M unit :=
  fun w =>
    if Qltb seconds 0
    then (Raise (mkExn ValueError "sleep length must be non-negative"), w)
    else (Ok tt, mkWorld (mono w + seconds)%Q (wall w + seconds)%Q (calls w)
                         (trace w ++ [EvSleep seconds])).

(** [range(lo, hi)] *)
Definition range (lo hi : Z) : list Z :=
  map (fun i => lo + Z.of_nat i) (seq 0 (Z.to_nat (hi - lo))).

(** [raise last_exc]: raising [None] is itself a [TypeError]. *)
Definition raise_object {X} (o : option Exn) : M X :=
  match o with
  | Some e => raise e
  | None => raise (mkExn TypeError "exceptions must derive from BaseException")
  end.

(** How a loop inside a function was left: by a [return] of the function,
    or by falling out of the loop ([break], or its test or range ended)
    with the local variables the code after the loop reads. *)
Inductive LoopExit (X L : Type) : Type :=
| Returned (v : X)
| FellThrough (locals : L).
Arguments Returned {X L} v.
Arguments FellThrough {X L} locals.

(** ** retry *)

Section Retry.
Context {A : Type}.

(** The decorator's arguments. *)
Variable times : Z.
Variables delay backoff : Q.
Variable exceptions : list ExcClass.
Variable on_retry : option (Exn -> Z -> Res unit).

(** The decorated function (called with the wrapper's own arguments). *)
Variable func : nat -> Res A.

(** [logger.warning("Retry %d/%d for %s: %s. Waiting %.1fs…", ...)] *)
Definition logger_warning (attempt : Z) (exc : Exn) (current_delay : Q)
  : M unit :=
  log (EvWarning attempt times exc current_delay).

(** [if on_retry: on_retry(exc, attempt)] *)
Definition call_on_retry (exc : Exn) (attempt : Z) : M unit :=
  match on_retry with
  | Some cb => (log (EvOnRetry exc attempt) ;; pure_call (cb exc attempt))%py
  | None => ret tt
  end.

(** The [for attempt in range(1, times + 1)] loop, over the attempts
    still to run. *)
Fixpoint retry_loop (attempts : list Z) (current_delay : Q)
    (last_exc : option Exn) : M (LoopExit A (option Exn)) :=
  match attempts with
  | [] => ret (FellThrough last_exc)
  | attempt :: rest =>
      try_except
        (v <- invoke func ;; ret (Returned v))%py
        exceptions
        (fun exc =>
           let last_exc := Some exc in
           if attempt =? times then ret (FellThrough last_exc)
           else
             (logger_warning attempt exc current_delay ;;
              call_on_retry exc attempt ;;
              sleep current_delay ;;
              retry_loop rest (current_delay * backoff)%Q last_exc)%py)
  end.

Definition wrapper : M A :=
  (exit <- retry_loop (range 1 (times + 1)) delay None ;;
   match exit with
   | Returned v => ret v
   | FellThrough last_exc => raise_object last_exc
   end)%py.

End Retry.

(** [retry(times, delay, backoff, exceptions, on_retry)(func)(...)] *)
Definition retry {A} (times : Z) (delay backoff : Q)
    (exceptions : list ExcClass) (on_retry : option (Exn -> Z -> Res unit))
    (func : nat -> Res A) : M A :=
  wrapper times delay backoff exceptions on_retry func.

(** ** asyncio primitives *)

(** What a callable of the asyncio variants hands back: a plain value, or
    a coroutine, which yields its outcome when awaited. *)
Inductive Awaitable (X : Type) : Type :=
| Plain (x : X)
| Coroutine (outcome : Res X).
Arguments Plain {X} x.
Arguments Coroutine {X} outcome.

(** [asyncio.get_event_loop().time()]: the loop's clock is the monotonic
    clock. *)
Definition loop_time : M Q := monotonic.

(** [await asyncio.sleep(seconds)]: a non-positive delay only yields to
    the scheduler; the suspension is traced in both cases. *)
Definition async_sleep (seconds : Q) : M unit :=
  fun w =>
    if Qltb 0 seconds
    then (Ok tt, mkWorld (mono w + seconds)%Q (wall w + seconds)%Q (calls w)
                         (trace w ++ [EvSleep seconds]))
    else (Ok tt, mkWorld (mono w) (wall w) (calls w)
                         (trace w ++ [EvSleep seconds])).

(** [if asyncio.iscoroutine(result): result = await result] *)
Definition await_if_coroutine {X} (result : Awaitable X) : M X :=
  match result with
  | Plain x => ret x
  | Coroutine outcome => pure_call outcome
  end.

(** ** wait_until, poll_until *)

Section Polling.
Context {T : Type}.

(** How an f-string renders a float, and a produced value. *)
Variable str_float : Q -> string.
Variable str_value : T -> string.

(** [f"{last_result}"] where [last_result] may still be [None]. *)
Definition str_object (o : option T) : string :=
  match o with
  | Some v => str_value v
  | None => "None"
  end.

(** The [while time.monotonic() < deadline] loop of [wait_until]; [fuel]
    bounds the number of iterations. *)
Fixpoint wait_until_loop (fuel : nat) (condition : nat -> Res bool)
    (interval deadline : Q) : M (LoopExit unit unit) :=
  match fuel with
  | O => hang
  | S fuel' =>
      (now <- monotonic ;;
       if Qltb now deadline then
         c <- invoke condition ;;
         if c : bool then ret (Returned tt)
         else
           sleep interval ;;
           wait_until_loop fuel' condition interval deadline
       else ret (FellThrough tt))%py
  end.

Definition wait_until (fuel : nat) (condition : nat -> Res bool)
    (timeout interval : Q) (message : string) : M unit :=
  (t0 <- monotonic ;;
   let deadline := (t0 + timeout)%Q in
   exit <- wait_until_loop fuel condition interval deadline ;;
   match exit with
   | Returned _ => ret tt
   | FellThrough _ =>
       raise (mkExn TimeoutError
                (message ++ " after " ++ str_float timeout ++ "s"))
   end)%py.

(** The loop of [poll_until]; [last_result] is the local it updates. *)
Fixpoint poll_until_loop (fuel : nat) (fn : nat -> Res T)
    (condition : T -> Res bool) (interval deadline : Q)
    (last_result : option T) : M (LoopExit T (option T)) :=
  match fuel with
  | O => hang
  | S fuel' =>
      (now <- monotonic ;;
       if Qltb now deadline then
         v <- invoke fn ;;
         let last_result := Some v in
         c <- pure_call (condition v) ;;
         if c : bool then ret (Returned v)
         else
           sleep interval ;;
           poll_until_loop fuel' fn condition interval deadline last_result
       else ret (FellThrough last_result))%py
  end.

Definition poll_until (fuel : nat) (fn : nat -> Res T)
    (condition : T -> Res bool) (timeout interval : Q) (message : string)
    : M T :=
  (t0 <- monotonic ;;
   let deadline := (t0 + timeout)%Q in
   exit <- poll_until_loop fuel fn condition interval deadline None ;;
   match exit with
   | Returned v => ret v
   | FellThrough last_result =>
       raise (mkExn TimeoutError
                (message ++ " after " ++ str_float timeout
                 ++ "s. Last result: " ++ str_object last_result))
   end)%py.

(** ** async_wait_until, async_poll_until *)

Fixpoint async_wait_until_loop (fuel : nat)
    (condition : nat -> Res (Awaitable bool)) (interval deadline : Q)
    : M (LoopExit unit unit) :=
  match fuel with
  | O => hang
  | S fuel' =>
      (now <- loop_time ;;
       if Qltb now deadline then
         result <- invoke condition ;;
         result <- await_if_coroutine result ;;
         if result : bool then ret (Returned tt)
         else
           async_sleep interval ;;
           async_wait_until_loop fuel' condition interval deadline
       else ret (FellThrough tt))%py
  end.

Definition async_wait_until (fuel : nat)
    (condition : nat -> Res (Awaitable bool)) (timeout interval : Q)
    (message : string) : M unit :=
  (t0 <- loop_time ;;
   let deadline := (t0 + timeout)%Q in
   exit <- async_wait_until_loop fuel condition interval deadline ;;
   match exit with
   | Returned _ => ret tt
   | FellThrough _ =>
       raise (mkExn TimeoutError
                (message ++ " after " ++ str_float timeout ++ "s"))
   end)%py.

Fixpoint async_poll_until_loop (fuel : nat)
    (fn : nat -> Res (Awaitable T)) (condition : T -> Res bool)
    (interval deadline : Q) (last_result : option T)
    : M (LoopExit T (option T)) :=
  match fuel with
  | O => hang
  | S fuel' =>
      (now <- loop_time ;;
       if Qltb now deadline then
         result <- invoke fn ;;
         result <- await_if_coroutine result ;;
         let last_result := Some result in
         c <- pure_call (condition result) ;;
         if c : bool then ret (Returned result)
         else
           async_sleep interval ;;
           async_poll_until_loop fuel' fn condition interval deadline
             last_result
       else ret (FellThrough last_result))%py
  end.

Definition async_poll_until (fuel : nat)
    (fn : nat -> Res (Awaitable T)) (condition : T -> Res bool)
    (timeout interval : Q) (message : string) : M T :=
  (t0 <- loop_time ;;
   let deadline := (t0 + timeout)%Q in
   exit <- async_poll_until_loop fuel fn condition interval deadline None ;;
   match exit with
   | Returned v => ret v
   | FellThrough last_result =>
       raise (mkExn TimeoutError
                (message ++ " after " ++ str_float timeout
                 ++ "s. Last result: " ++ str_object last_result))
   end)%py.

End Polling.

(** ** Rendering, for the concrete runs *)

Definition str_int (z : Z) : string := NilZero.string_of_int (Z.to_int z).

Definition digit (d : Z) : ascii := ascii_of_nat (48 + Z.to_nat d).

(** Decimal digits of [r / d] after the point, for [0 <= r < d]. *)
Fixpoint fraction_digits (fuel : nat) (r d : Z) : string :=
  match fuel with
  | O => EmptyString
  | S fuel' =>
      if r =? 0 then EmptyString
      else String (digit (r * 10 / d)) (fraction_digits fuel' (r * 10 mod d) d)
  end.

(** [repr] of a float with a short finite decimal expansion and a
    magnitude for which Python does not switch to exponent notation:
    [1.0], [0.75], [30.0]. *)
Definition float_repr (q : Q) : string :=
  let n := Qnum q in
  let d := Zpos (Qden q) in
  let r := Z.abs n mod d in
  ((if (n <? 0)%Z then "-" else "") ++ str_int (Z.abs n / d)%Z ++ "."
   ++ (if (r =? 0)%Z then "0" else fraction_digits 17 r d))%string.

(** ** Reading a trace *)

Definition is_on_retry (ev : Event) : bool :=
  match ev with EvOnRetry _ _ => true | _ => false end.

Definition is_call (ev : Event) : bool :=
  match ev with EvCall => true | _ => false end.

(** The suspensions of a trace, oldest first. *)
Fixpoint sleeps (evs : list Event) : list Q :=
  match evs with
  | [] => []
  | EvSleep d :: rest => d :: sleeps rest
  | _ :: rest => sleeps rest
  end.

Definition on_retry_count (evs : list Event) : nat :=
  List.length (filter is_on_retry evs).

Definition call_count (evs : list Event) : nat :=
  List.length (filter is_call evs).

Definition sleep_count (evs : list Event) : nat := List.length (sleeps evs).

(** ** Scripts and values for the concrete runs *)

(** A script that fails [m] times with [e] and then returns [v]. *)
Definition flaky {X} (m : nat) (e : Exn) (v : X) : nat -> Res X :=
  fun j => if (j <=? m)%nat then Raise e else Ok v.

(** A script that fails on every call. *)
Definition always_raise {X} (e : Exn) : nat -> Res X := fun _ => Raise e.

(** A script that returns [pending] [m] times and then raises [e]. *)
Definition pending_then_raise {X} (m : nat) (pending : X) (e : Exn)
  : nat -> Res X :=
  fun j => if (j <=? m)%nat then Ok pending else Raise e.

(** An [async def] callable: every call hands back a coroutine, whose
    outcome is the script's. *)
Definition coroutine_script {X} (f : nat -> Res X) : nat -> Res (Awaitable X) :=
  fun j => Ok (Coroutine (f j)).

(** The producer that yields 1, 2, 3, ... *)
Definition counting : nat -> Res Z := fun j => Ok (Z.of_nat j).

(** The predicate [value == target]. *)
Definition equals (target : Z) : Z -> Res bool := fun v => Ok (v =? target).

(** A predicate over values that raises [e] on [target] and is false
    elsewhere. *)
Definition raising_at (target : Z) (e : Exn) : Z -> Res bool :=
  fun v => if v =? target then Raise e else Ok false.

(** A script that never raises and never returns a satisfying value. *)
Definition never : nat -> Res bool := fun _ => Ok false.

Definition boom : Exn := mkExn ValueError "boom".

(** An observer that only returns. *)
Definition quiet : Exn -> Z -> Res unit := fun _ _ => Ok tt.

(** A fresh world: both clocks at zero, nothing called, nothing traced. *)
Definition world0 : World := mkWorld 0 0 0 [].

(** ** Vocabulary of the statements *)

(** The outcome of calling an asyncio-style callable and awaiting the
    coroutine it may have returned. *)
Definition settle {X} (r : Res (Awaitable X)) : Res X :=
  match r with
  | Ok (Plain x) => Ok x
  | Ok (Coroutine outcome) => outcome
  | Raise e => Raise e
  | Hang => Hang
  end.

(** One probe of a polling loop: the producer's outcome put to the
    predicate. *)
Definition check {T} (condition : T -> Res bool) (r : Res T) : Res bool :=
  match r with
  | Ok v => condition v
  | Raise e => Raise e
  | Hang => Hang
  end.



(** [d; d*f; d*f*f; ...], [m] terms, multiplied the way the loop does. *)
Fixpoint geometric (f : Q) (m : nat) (d : Q) : list Q :=
  match m with
  | O => []
  | S m' => d :: geometric f m' (d * f)%Q
  end.

(** What a run appended to the trace. *)
Definition events_since (w w' : World) : list Event :=
  skipn (List.length (trace w)) (trace w').

Definition run_events {X} (m : M X) (w : World) : list Event :=
  events_since w (snd (m w)).

(** The world right after one invocation of the scripted callable. *)
Definition called (w : World) : World :=
  mkWorld (mono w) (wall w) (S (calls w)) (trace w ++ [EvCall]).

(** * utils/assertions.py, utils/api_client.py, config/settings.py:
      the helpers without effects

    These functions touch no clock and call nothing scripted: their
    outcome is a plain [Res]. *)

Definition res_bind {X Y} (r : Res X) (k : X -> Res Y) : Res Y :=
  match r with
  | Ok x => k x
  | Raise e => Raise e
  | Hang => Hang
  end.

(** [try: body / except classes: handler] on plain outcomes. *)
Definition res_try_except {X} (body : Res X) (classes : list ExcClass)
    (handler : Exn -> Res X) : Res X :=
  match body with
  | Raise e => if isinstance e classes then handler e else Raise e
  | r => r
  end.

(** The builtin [KeyError], a [LookupError]. *)
Definition KeyError : ExcClass :=
  UserError "KeyError" (UserError "LookupError" Exception).

(** The newline of the messages. *)
Definition nl : string := String (ascii_of_nat 10) EmptyString.

(** [s[:n]]: a negative [n] counts from the end, and the stop is clipped
    to the string. *)
Definition slice_to (s : string) (n : Z) : string :=
  if n <? 0
  then substring 0 (Z.to_nat (Z.of_nat (String.length s) + n)) s
  else substring 0 (Z.to_nat n) s.

(** What the helpers read of an [httpx.Response].  [url] is the outcome
    of reading [response.url], which raises a [RuntimeError] when no
    request is attached to the response; [json_dumps_body] is the outcome
    of [json.dumps(response.json(), indent=2)], which fails when the body
    is not JSON. *)
Record Response : Type := mkResponse {
  status_code : Z;
  url : Res string;
  json_dumps_body : Res string;
  text : string
}.

Definition _safe_body (response : Response) (max_len : Z) : Res string :=
  res_bind
    (res_try_except (json_dumps_body response) [Exception]
       (fun _ => Ok (text response)))
    (fun body =>
       Ok (slice_to body max_len
           ++ (if Z.of_nat (String.length body) >? max_len
               then "..." else ""))%string).




(** [_truncate] of utils/api_client.py; [obj] is [None] or an object,
    and [render] is [json.dumps] for a dict and [str] otherwise. *)
Definition _truncate {X} (render : X -> string) (obj : option X)
    (max_len : Z) : string :=
  match obj with
  | None => ""%string
  | Some o =>
      let s := render o in
      if Z.of_nat (String.length s) >? max_len
      then (slice_to s max_len ++ "...")%string
      else s
  end.

(** ** Values and dicts *)

(** The values the data helpers are used on: integers and strings. *)
Inductive PyVal : Type :=
| PInt (z : Z)
| PStr (s : string).

(** [a == b] *)
Definition py_eqb (a b : PyVal) : bool :=
  match a, b with
  | PInt x, PInt y => x =? y
  | PStr x, PStr y => String.eqb x y
  | _, _ => false
  end.

(** [str(v)] *)
Definition py_str (v : PyVal) : string :=
  match v with
  | PInt z => str_int z
  | PStr s => s
  end.

(** A dict with string keys, in insertion order; every key once. *)
Definition Dict (V : Type) : Type := list (string * V).

Fixpoint dict_get {V} (d : Dict V) (key : string) : option V :=
  match d with
  | [] => None
  | (k, v) :: rest => if String.eqb k key then Some v else dict_get rest key
  end.

(** [d[key] = v] *)
Fixpoint dict_set {V} (d : Dict V) (key : string) (v : V) : Dict V :=
  match d with
  | [] => [(key, v)]
  | (k, x) :: rest =>
      if String.eqb k key then (k, v) :: rest
      else (k, x) :: dict_set rest key v
  end.

(** [[item[key] for item in data]]: the first item without the key
    raises [KeyError]. *)
Fixpoint getitems {V} (data : list (Dict V)) (key : string) : Res (list V) :=
  match data with
  | [] => Ok []
  | item :: rest =>
      match dict_get item key with
      | None => Raise (mkExn KeyError key)
      | Some v => res_bind (getitems rest key) (fun vs => Ok (v :: vs))
      end
  end.

(** The values [assert_contains] is used on: integers, strings, and
    objects [json.dumps] has no encoding for (a [datetime], a [set]).  Of
    such an object only its type is known, and which objects it is equal
    to: those with the same [ident]. *)
Inductive JVal : Type :=
| JInt (z : Z)
| JStr (s : string)
| JObject (type_name : string) (ident : nat).

(** [a == b] *)
Definition jval_eqb (a b : JVal) : bool :=
  match a, b with
  | JInt x, JInt y => x =? y
  | JStr x, JStr y => String.eqb x y
  | JObject t i, JObject t' i' => String.eqb t t' && Nat.eqb i i'
  | _, _ => false
  end.

(** The loop of [assert_contains] over [expected.items()], filling
    [missing] and [mismatches]. *)
Fixpoint contains_scan (actual expected : Dict JVal)
    (mismatches : Dict (JVal * JVal)) (missing : Dict JVal)
    : Dict (JVal * JVal) * Dict JVal :=
  match expected with
  | [] => (mismatches, missing)
  | (key, expected_val) :: rest =>
      match dict_get actual key with
      | None =>
          contains_scan actual rest mismatches
            (dict_set missing key expected_val)
      | Some actual_val =>
          if negb (jval_eqb actual_val expected_val)
          then contains_scan actual rest
                 (dict_set mismatches key (expected_val, actual_val)) missing
          else contains_scan actual rest mismatches missing
      end
  end.

(** The first value of a dict that [json.dumps] cannot encode. *)
Fixpoint first_unencodable (d : Dict JVal) : option string :=
  match d with
  | [] => None
  | (_, JObject type_name _) :: _ => Some type_name
  | _ :: rest => first_unencodable rest
  end.

(** [json.dumps(missing, indent=2)]: a value without an encoding is a
    [TypeError]; [render] is the text of a dict that has none. *)
Definition json_dumps (render : Dict JVal -> string) (d : Dict JVal)
  : Res string :=
  match first_unencodable d with
  | Some type_name =>
      Raise (mkExn TypeError
               ("Object of type " ++ type_name ++ " is not JSON serializable")
               %string)
  | None => Ok (render d)
  end.

Definition nonempty {X} (l : list X) : bool :=
  match l with [] => false | _ => true end.

(** [assert_contains].  [missing] is rendered by
    [json.dumps(missing, indent=2)]; [mismatches] by
    [json.dumps(mismatches, indent=2, default=str)], which falls back to
    [str] and so renders every value: [dumps_mismatches] is its text. *)
Definition assert_contains (render : Dict JVal -> string)
    (dumps_mismatches : Dict (JVal * JVal) -> string)
    (actual expected : Dict JVal) : Res unit :=
  let '(mismatches, missing) := contains_scan actual expected [] [] in
  res_bind
    (if nonempty missing
     then res_bind (json_dumps render missing)
            (fun text => Ok ["Missing keys: " ++ text]%string)
     else Ok [])
    (fun errors =>
       let errors :=
         errors
         ++ (if nonempty mismatches
             then ["Value mismatches: " ++ dumps_mismatches mismatches]%string
             else []) in
       if nonempty errors
       then Raise (mkExn AssertionError
                     ("assert_contains failed:" ++ nl
                      ++ String.concat nl errors)%string)
       else Ok tt).

(** [sorted(values, reverse=reverse)] on integers: the stable sort, by
    insertion.  On integers equal elements cannot be told apart, so the
    result is the one ordered rearrangement of the list. *)
Definition py_le (reverse : bool) (x y : Z) : bool :=
  if reverse then y <=? x else x <=? y.

Fixpoint insert_sorted (reverse : bool) (x : Z) (l : list Z) : list Z :=
  match l with
  | [] => [x]
  | y :: rest =>
      if py_le reverse x y then x :: y :: rest
      else y :: insert_sorted reverse x rest
  end.

Fixpoint sorted (reverse : bool) (values : list Z) : list Z :=
  match values with
  | [] => []
  | x :: rest => insert_sorted reverse x (sorted reverse rest)
  end.

Fixpoint list_eqb (a b : list Z) : bool :=
  match a, b with
  | [], [] => true
  | x :: a', y :: b' => (x =? y) && list_eqb a' b'
  | _, _ => false
  end.

Definition str_bool (b : bool) : string :=
  if b then "True"%string else "False"%string.

Definition assert_sorted (str_list : list Z -> string)
    (data : list (Dict Z)) (key : string) (reverse : bool) : Res unit :=
  res_bind (getitems data key) (fun values =>
    let expected := sorted reverse values in
    if negb (list_eqb values expected) then
      Raise (mkExn AssertionError
               ("List not sorted by '" ++ key ++ "' (reverse="
                ++ str_bool reverse ++ ")" ++ nl
                ++ "Got:      " ++ str_list values ++ nl
                ++ "Expected: " ++ str_list expected)%string)
    else Ok tt).

(** [values.count(v)] *)
Definition py_count (values : list PyVal) (v : PyVal) : nat :=
  List.length (filter (fun x => py_eqb x v) values).

Definition assert_unique (str_list : list PyVal -> string)
    (data : list (Dict PyVal)) (key : string) : Res unit :=
  res_bind (getitems data key) (fun values =>
    if negb (List.length values
             =? List.length (nodup string_dec (map py_str values)))%nat
    then
      let duplicates := filter (fun v => (1 <? py_count values v)%nat) values in
      Raise (mkExn AssertionError
               ("Duplicate values for '" ++ key ++ "': "
                ++ str_list duplicates)%string)
    else Ok tt).

(** [v.rstrip("/")] *)
Fixpoint rstrip_slash (v : string) : string :=
  match v with
  | EmptyString => EmptyString
  | String c rest =>
      match rstrip_slash rest with
      | EmptyString =>
          if Ascii.eqb c "/" then EmptyString else String c EmptyString
      | stripped => String c stripped
      end
  end.

(** [Settings.strip_trailing_slash] *)
Definition strip_trailing_slash (v : string) : string := rstrip_slash v.

(** [ApiClient.__init__]: [(base_url or settings.api_base_url).rstrip("/")] *)
Definition client_base_url (base_url : option string)
    (settings_api_base_url : string) : string :=
  rstrip_slash
    (match base_url with
     | Some (String c rest) => String c rest
     | _ => settings_api_base_url
     end).

(** [k] slashes. *)
Fixpoint slashes (k : nat) : string :=
  match k with
  | O => EmptyString
  | S k' => String "/" (slashes k')
  end.

(** The last character of a string, if any. *)
Fixpoint last_char (s : string) : option ascii :=
  match s with
  | EmptyString => None
  | String c EmptyString => Some c
  | String _ rest => last_char rest
  end.



(** The order [sorted] puts a list in. *)
Definition py_order (reverse : bool) (x y : Z) : Prop :=
  if reverse then y <= x else x <= y.

(** * utils/data_factory.py: _strong_password

    The random source is a stream of raw draws, read one after the other;
    a draw is brought into the range asked for.  Every property is for
    every stream. *)

Definition ascii_lowercase : list ascii :=
  list_ascii_of_string "abcdefghijklmnopqrstuvwxyz".
Definition ascii_uppercase : list ascii :=
  list_ascii_of_string "ABCDEFGHIJKLMNOPQRSTUVWXYZ".
Definition ascii_letters : list ascii := ascii_lowercase ++ ascii_uppercase.
Definition digits : list ascii := list_ascii_of_string "0123456789".
Definition specials : list ascii := list_ascii_of_string "!@#$%^&*".

(** [random._randbelow(n)]: an index below [n], and the next position in
    the stream. *)
Definition randbelow (draws : nat -> nat) (n : nat) (pos : nat) : nat * nat :=
  ((draws pos mod n)%nat, S pos).

(** [random.choice(seq)], for the non-empty literals it is called on. *)
Definition choice (draws : nat -> nat) (seq : list ascii) (pos : nat)
  : ascii * nat :=
  let '(i, pos') := randbelow draws (List.length seq) pos in
  (nth i seq Ascii.zero, pos').

(** [random.choices(population, k=k)]: [k] independent picks. *)
Fixpoint choices (draws : nat -> nat) (population : list ascii) (k : nat)
    (pos : nat) : list ascii * nat :=
  match k with
  | O => ([], pos)
  | S k' =>
      let '(c, pos') := choice draws population pos in
      let '(rest, pos'') := choices draws population k' pos' in
      (c :: rest, pos'')
  end.

(** [x[i] = v] for [i] in range. *)
Fixpoint list_update (x : list ascii) (i : nat) (v : ascii) : list ascii :=
  match x, i with
  | [], _ => []
  | _ :: rest, O => v :: rest
  | c :: rest, S i' => c :: list_update rest i' v
  end.

(** [x[i], x[j] = x[j], x[i]] *)
Definition swap (x : list ascii) (i j : nat) : list ascii :=
  let xj := nth j x Ascii.zero in
  let xi := nth i x Ascii.zero in
  list_update (list_update x i xj) j xi.

(** The loop of [random.shuffle]:
    [for i in reversed(range(1, len(x))): j = randbelow(i + 1); swap]. *)
Fixpoint shuffle_loop (draws : nat -> nat) (i : nat) (x : list ascii)
    (pos : nat) : list ascii * nat :=
  match i with
  | O => (x, pos)
  | S i' =>
      let '(j, pos') := randbelow draws (S i) pos in
      shuffle_loop draws i' (swap x i j) pos'
  end.

Definition shuffle (draws : nat -> nat) (x : list ascii) (pos : nat)
  : list ascii * nat :=
  shuffle_loop draws (List.length x - 1)%nat x pos.

Definition _strong_password (draws : nat -> nat) (length : Z) (pos : nat)
  : string * nat :=
  let chars := ascii_letters ++ digits ++ specials in
  let '(c1, pos) := choice draws ascii_uppercase pos in
  let '(c2, pos) := choice draws ascii_lowercase pos in
  let '(c3, pos) := choice draws digits pos in
  let '(c4, pos) := choice draws specials pos in
  let pwd := [c1; c2; c3; c4] in
  let '(more, pos) := choices draws chars (Z.to_nat (length - 4)) pos in
  let pwd := pwd ++ more in
  let '(pwd, pos) := shuffle draws pwd pos in
  (string_of_list_ascii pwd, pos).

(** ** Vocabulary of the further properties of retry *)

Definition has_observer (on_retry : option (Exn -> Z -> Res unit)) : bool :=
  match on_retry with Some _ => true | None => false end.

(** The observer, when there is one, returns normally on the faults of
    attempts [lo+1 .. hi]. *)
Definition observer_returns_on (on_retry : option (Exn -> Z -> Res unit))
    (faults : nat -> Exn) (lo hi : nat) : Prop :=
  match on_retry with
  | Some cb =>
      forall i, (lo < i <= hi)%nat -> cb (faults i) (Z.of_nat i) = Ok tt
  | None => True
  end.

(** A script that raises [e] on its first [m] calls and [e'] afterwards. *)
Definition raise_then {X} (m : nat) (e e' : Exn) : nat -> Res X :=
  fun j => if (j <=? m)%nat then Raise e else Raise e'.

Definition bad : Exn := mkExn TypeError "bad".

(** An observer that raises [e] when told of attempt [k], and only
    returns otherwise. *)
Definition raising_observer (k : Z) (e : Exn) : Exn -> Z -> Res unit :=
  fun _ attempt => if attempt =? k then Raise e else Ok tt.

(** * utils/retry.py with binary64 floats

    The same helpers with the delays, the timeouts and the clock readings
    as IEEE 754 binary64 numbers, which is what Python floats are: every
    product [current_delay * backoff] and every sum [now + interval] is
    rounded the way the interpreter rounds it.  The module also has what
    the exact model above leaves out: the evaluation of [func.__name__]
    for the warning, the lengths [time.sleep] and [asyncio.sleep] do not
    accept, and a wall clock that can be set from outside during a
    run. *)


Definition OverflowError : ExcClass :=
  UserError "OverflowError" (UserError "ArithmeticError" Exception).

Module Binary64.

Inductive Event : Type :=
| EvCall
| EvWarning (attempt times : Z) (name : string) (exc : Exn)
    (current_delay : float)
| EvOnRetry (exc : Exn) (attempt : Z)
| EvSleep (seconds : float).

(** What the program does not decide: the interpreter and the machine.
    - [sleep_refusal seconds]: the fault with which [time.sleep] refuses a
      length instead of sleeping (CPython refuses a negative length, a
      length that is not a number and a length too large for its clock).
    - [timer seconds], for [seconds] above zero: what becomes of the
      timer [asyncio.sleep] sets: it fires after [seconds] ([Ok]), is
      refused, or never fires ([Hang]).
    - [wall_set j]: the value the wall clock is set to from outside
      during the [j]-th call of the scripted callable, if it is set. *)
Record Env : Type := mkEnv {
  sleep_refusal : float -> option Exn;
  timer : float -> Res unit;
  wall_set : nat -> option float
}.

Record World : Type := mkWorld {
  mono : float;        (* time.monotonic(), also the event loop's time() *)
  wall : float;        (* time.time(); no helper reads it *)
  calls : nat;         (* invocations of the scripted callable so far *)
  trace : list Event;
  env : Env
}.

Definition M (X : Type) : Type := World -> Res X * World.

Definition ret {X} (x : X) : M X := fun w => (Ok x, w).

Definition raise {X} (e : Exn) : M X := fun w => (Raise e, w).

Definition hang {X} : M X := fun w => (Hang, w).

Definition bind {X Y} (m : M X) (k : X -> M Y) : M Y :=
  fun w =>
    match m w with
    | (Ok x, w') => k x w'
    | (Raise e, w') => (Raise e, w')
    | (Hang, w') => (Hang, w')
    end.

Declare Scope py64_scope.
Delimit Scope py64_scope with py64.
Notation "x <- m ;; k" := (bind m (fun x => k))
  (at level 61, m at next level, right associativity) : py64_scope.
Notation "m ;; k" := (bind m (fun _ => k))
  (at level 61, right associativity) : py64_scope.

Definition try_except {X} (body : M X) (classes : list ExcClass)
    (handler : Exn -> M X) : M X :=
  fun w =>
    match body w with
    | (Raise e, w') =>
        if isinstance e classes then handler e w' else (Raise e, w')
    | r => r
    end.

Definition log (ev : Event) : M unit :=
  fun w =>
    (Ok tt, mkWorld (mono w) (wall w) (calls w) (trace w ++ [ev]) (env w)).

(** The world right after one invocation of the scripted callable: the
    call is counted and traced, and the wall clock is where the outside
    world has put it meanwhile. *)
Definition called (w : World) : World :=
  mkWorld (mono w)
          (match wall_set (env w) (S (calls w)) with
           | Some t => t
           | None => wall w
           end)
          (S (calls w)) (trace w ++ [EvCall]) (env w).

Definition invoke {X} (f : nat -> Res X) : M X :=
  fun w => (f (S (calls w)), called w).

Definition pure_call {X} (r : Res X) : M X := fun w => (r, w).

(** [time.monotonic()] *)
Definition monotonic : M float := fun w => (Ok (mono w), w).

(** The world right after a sleep of [seconds]: both clocks have moved by
    [seconds], rounded as floats are. *)
Definition slept (seconds : float) (w : World) : World :=
  mkWorld (mono w + seconds)%float (wall w + seconds)%float (calls w)
          (trace w ++ [EvSleep seconds]) (env w).

(** [time.sleep(seconds)]: the length is refused, or both clocks move by
    it. *)
Definition sleep (seconds : float) : M unit :=
  fun w =>
    match sleep_refusal (env w) seconds with
    | Some e => (Raise e, w)
    | None => (Ok tt, slept seconds w)
    end.

Definition raise_object {X} (o : option Exn) : M X :=
  match o with
  | Some e => raise e
  | None => raise (mkExn TypeError "exceptions must derive from BaseException")
  end.

(** ** retry *)

(** What the wrapper uses of the decorated object: its [__name__]
    attribute, whose evaluation raises [AttributeError] on a callable
    that has none (a [functools.partial], a [Mock]), and the call
    itself. *)
Record Callable (A : Type) : Type := mkCallable {
  __name__ : Res string;
  __call__ : nat -> Res A
}.
Arguments mkCallable {A} __name__ __call__.
Arguments __name__ {A} c.
Arguments __call__ {A} c.

Section Retry.
Context {A : Type}.

Variable times : Z.
Variables delay backoff : float.
Variable exceptions : list ExcClass.
Variable on_retry : option (Exn -> Z -> Res unit).
Variable func : Callable A.

(** [logger.warning("Retry %d/%d for %s: %s. Waiting %.1fs…", attempt,
    times, func.__name__, exc, current_delay)]: the arguments are
    evaluated before the call. *)
Definition logger_warning (attempt : Z) (exc : Exn) (current_delay : float)
  : M unit :=
  (name <- pure_call (__name__ func) ;;
   log (EvWarning attempt times name exc current_delay))%py64.

Definition call_on_retry (exc : Exn) (attempt : Z) : M unit :=
  match on_retry with
  | Some cb => (log (EvOnRetry exc attempt) ;; pure_call (cb exc attempt))%py64
  | None => ret tt
  end.

Fixpoint retry_loop (attempts : list Z) (current_delay : float)
    (last_exc : option Exn) : M (LoopExit A (option Exn)) :=
  match attempts with
  | [] => ret (FellThrough last_exc)
  | attempt :: rest =>
      try_except
        (v <- invoke (__call__ func) ;; ret (Returned v))%py64
        exceptions
        (fun exc =>
           let last_exc := Some exc in
           if attempt =? times then ret (FellThrough last_exc)
           else
             (logger_warning attempt exc current_delay ;;
              call_on_retry exc attempt ;;
              sleep current_delay ;;
              retry_loop rest (current_delay * backoff)%float last_exc)%py64)
  end.

Definition wrapper : M A :=
  (exit <- retry_loop (range 1 (times + 1)) delay None ;;
   match exit with
   | Returned v => ret v
   | FellThrough last_exc => raise_object last_exc
   end)%py64.

End Retry.

(** [retry(times, delay, backoff, exceptions, on_retry)(func)(...)] *)
Definition retry {A} (times : Z) (delay backoff : float)
    (exceptions : list ExcClass) (on_retry : option (Exn -> Z -> Res unit))
    (func : Callable A) : M A :=
  wrapper times delay backoff exceptions on_retry func.

(** ** asyncio primitives *)

(** [asyncio.get_event_loop().time()] *)
Definition loop_time : M float := monotonic.

(** [await asyncio.sleep(seconds)]: with [seconds <= 0] the task only
    yields to the scheduler; otherwise a timer is set, and when it fires
    the task resumes, [seconds] later. *)
Definition async_sleep (seconds : float) : M unit :=
  fun w =>
    if (seconds <=? 0)%float
    then (Ok tt, mkWorld (mono w) (wall w) (calls w)
                         (trace w ++ [EvSleep seconds]) (env w))
    else
      match timer (env w) seconds with
      | Ok _ => (Ok tt, slept seconds w)
      | Raise e => (Raise e, w)
      | Hang => (Hang, w)
      end.

Definition await_if_coroutine {X} (result : Awaitable X) : M X :=
  match result with
  | Plain x => ret x
  | Coroutine outcome => pure_call outcome
  end.

(** ** wait_until, poll_until *)

Section Polling.
Context {T : Type}.

(** How an f-string renders a float, and a produced value. *)
Variable str_float : float -> string.
Variable str_value : T -> string.

Definition str_object (o : option T) : string :=
  match o with
  | Some v => str_value v
  | None => "None"
  end.

Fixpoint wait_until_loop (fuel : nat) (condition : nat -> Res bool)
    (interval deadline : float) : M (LoopExit unit unit) :=
  match fuel with
  | O => hang
  | S fuel' =>
      (now <- monotonic ;;
       if (now <? deadline)%float then
         c <- invoke condition ;;
         if c : bool then ret (Returned tt)
         else
           sleep interval ;;
           wait_until_loop fuel' condition interval deadline
       else ret (FellThrough tt))%py64
  end.

Definition wait_until (fuel : nat) (condition : nat -> Res bool)
    (timeout interval : float) (message : string) : M unit :=
  (t0 <- monotonic ;;
   let deadline := (t0 + timeout)%float in
   exit <- wait_until_loop fuel condition interval deadline ;;
   match exit with
   | Returned _ => ret tt
   | FellThrough _ =>
       raise (mkExn TimeoutError
                (message ++ " after " ++ str_float timeout ++ "s"))
   end)%py64.

Fixpoint poll_until_loop (fuel : nat) (fn : nat -> Res T)
    (condition : T -> Res bool) (interval deadline : float)
    (last_result : option T) : M (LoopExit T (option T)) :=
  match fuel with
  | O => hang
  | S fuel' =>
      (now <- monotonic ;;
       if (now <? deadline)%float then
         v <- invoke fn ;;
         let last_result := Some v in
         c <- pure_call (condition v) ;;
         if c : bool then ret (Returned v)
         else
           sleep interval ;;
           poll_until_loop fuel' fn condition interval deadline last_result
       else ret (FellThrough last_result))%py64
  end.

Definition poll_until (fuel : nat) (fn : nat -> Res T)
    (condition : T -> Res bool) (timeout interval : float) (message : string)
    : M T :=
  (t0 <- monotonic ;;
   let deadline := (t0 + timeout)%float in
   exit <- poll_until_loop fuel fn condition interval deadline None ;;
   match exit with
   | Returned v => ret v
   | FellThrough last_result =>
       raise (mkExn TimeoutError
                (message ++ " after " ++ str_float timeout
                 ++ "s. Last result: " ++ str_object last_result))
   end)%py64.

(** ** async_wait_until, async_poll_until *)

Fixpoint async_wait_until_loop (fuel : nat)
    (condition : nat -> Res (Awaitable bool)) (interval deadline : float)
    : M (LoopExit unit unit) :=
  match fuel with
  | O => hang
  | S fuel' =>
      (now <- loop_time ;;
       if (now <? deadline)%float then
         result <- invoke condition ;;
         result <- await_if_coroutine result ;;
         if result : bool then ret (Returned tt)
         else
           async_sleep interval ;;
           async_wait_until_loop fuel' condition interval deadline
       else ret (FellThrough tt))%py64
  end.

Definition async_wait_until (fuel : nat)
    (condition : nat -> Res (Awaitable bool)) (timeout interval : float)
    (message : string) : M unit :=
  (t0 <- loop_time ;;
   let deadline := (t0 + timeout)%float in
   exit <- async_wait_until_loop fuel condition interval deadline ;;
   match exit with
   | Returned _ => ret tt
   | FellThrough _ =>
       raise (mkExn TimeoutError
                (message ++ " after " ++ str_float timeout ++ "s"))
   end)%py64.

Fixpoint async_poll_until_loop (fuel : nat)
    (fn : nat -> Res (Awaitable T)) (condition : T -> Res bool)
    (interval deadline : float) (last_result : option T)
    : M (LoopExit T (option T)) :=
  match fuel with
  | O => hang
  | S fuel' =>
      (now <- loop_time ;;
       if (now <? deadline)%float then
         result <- invoke fn ;;
         result <- await_if_coroutine result ;;
         let last_result := Some result in
         c <- pure_call (condition result) ;;
         if c : bool then ret (Returned result)
         else
           async_sleep interval ;;
           async_poll_until_loop fuel' fn condition interval deadline
             last_result
       else ret (FellThrough last_result))%py64
  end.

Definition async_poll_until (fuel : nat)
    (fn : nat -> Res (Awaitable T)) (condition : T -> Res bool)
    (timeout interval : float) (message : string) : M T :=
  (t0 <- loop_time ;;
   let deadline := (t0 + timeout)%float in
   exit <- async_poll_until_loop fuel fn condition interval deadline None ;;
   match exit with
   | Returned v => ret v
   | FellThrough last_result =>
       raise (mkExn TimeoutError
                (message ++ " after " ++ str_float timeout
                 ++ "s. Last result: " ++ str_object last_result))
   end)%py64.

End Polling.

(** ** Reading a trace *)

Definition is_on_retry (ev : Event) : bool :=
  match ev with EvOnRetry _ _ => true | _ => false end.

Definition is_call (ev : Event) : bool :=
  match ev with EvCall => true | _ => false end.

Fixpoint sleeps (evs : list Event) : list float :=
  match evs with
  | [] => []
  | EvSleep d :: rest => d :: sleeps rest
  | _ :: rest => sleeps rest
  end.

Definition on_retry_count (evs : list Event) : nat :=
  List.length (filter is_on_retry evs).

Definition call_count (evs : list Event) : nat :=
  List.length (filter is_call evs).

Definition sleep_count (evs : list Event) : nat := List.length (sleeps evs).

Fixpoint on_retry_args (evs : list Event) : list (Exn * Z) :=
  match evs with
  | [] => []
  | EvOnRetry exc attempt :: rest => (exc, attempt) :: on_retry_args rest
  | _ :: rest => on_retry_args rest
  end.

Definition events_since (w w' : World) : list Event :=
  skipn (List.length (trace w)) (trace w').

Definition run_events {X} (m : M X) (w : World) : list Event :=
  events_since w (snd (m w)).

(** ** Vocabulary of the statements *)

(** A function defined with [def]: it has its name. *)
Definition def_function {A} (name : string) (body : nat -> Res A)
  : Callable A :=
  mkCallable (Ok name) body.


(** The checks of CPython 3.11 on a length given to [time.sleep], in
    their order: not a number; beyond a 64-bit count of nanoseconds;
    negative, which is also what the count 2^63 itself is taken for. *)
Definition cpython_sleep_refusal (seconds : float) : option Exn :=
  if is_nan seconds
  then Some (mkExn ValueError "Invalid value NaN (not a number)")
  else
    let ns := (seconds * 1000000000)%float in
    if (ns <? -9223372036854775808)%float
       || (9223372036854775808 <? ns)%float
    then Some (mkExn OverflowError
                 "timestamp too large to convert to C _PyTime_t")
    else if (seconds <? 0)%float || (ns =? 9223372036854775808)%float
    then Some (mkExn ValueError "sleep length must be non-negative")
    else None.

(** A timer fires unless it is set to infinity or to not-a-number. *)
Definition cpython_timer (seconds : float) : Res unit :=
  if is_nan seconds || (seconds =? infinity)%float then Hang else Ok tt.

(** The surroundings of the concrete runs; nobody sets the wall clock. *)
Definition cpython : Env :=
  mkEnv cpython_sleep_refusal cpython_timer (fun _ => None).

(** A fresh world: both clocks at zero, nothing called, nothing
    traced. *)
Definition world0 : World := mkWorld 0 0 0 [] cpython.

(** [time.sleep] takes the length [seconds] in the world [w]. *)
Definition sleeps_for (w : World) (seconds : float) : Prop :=
  sleep_refusal (env w) seconds = None.

(** [asyncio.sleep(seconds)] resumes the task [seconds] later in the
    world [w]. *)
Definition timer_fires (w : World) (seconds : float) : Prop :=
  (seconds <=? 0)%float = false /\ timer (env w) seconds = Ok tt.

(** The float 0.1, as Python reads the literal. *)
Definition tenth : float := Eval cbv in (1 / 10)%float.

(** The delay after [m] retries: [((d * f) * f) ... * f], each product
    rounded. *)
Fixpoint grow (f : float) (m : nat) (d : float) : float :=
  match m with
  | O => d
  | S m' => grow f m' (d * f)%float
  end.

(** [d; d*f; (d*f)*f; ...], [m] terms. *)
Fixpoint geometric (f : float) (m : nat) (d : float) : list float :=
  match m with
  | O => []
  | S m' => d :: geometric f m' (d * f)%float
  end.

(** [f * f * ... * f], [n] factors, as [f ** n] for a small [n]. *)
Fixpoint float_pow (f : float) (n : nat) : float :=
  match n with
  | O => 1%float
  | S n' => (float_pow f n' * f)%float
  end.

(** The clock after [m] sleeps of [interval] from the reading [t]:
    [((t + i) + i) ... + i], each sum rounded. *)
Fixpoint clock_after (interval : float) (m : nat) (t : float) : float :=
  match m with
  | O => t
  | S m' => clock_after interval m' (t + interval)%float
  end.

(** The loop test on the reading after [m] sleeps: the probe that comes
    then is begun. *)
Definition in_time (interval deadline t : float) (m : nat) : bool :=
  (clock_after interval m t <? deadline)%float.

(** What one caught, non-final attempt appends to the trace. *)
Definition retry_round (times : Z) (name : string) (observer : bool)
    (attempt : Z) (exc : Exn) (current_delay : float) : list Event :=
  [EvCall; EvWarning attempt times name exc current_delay]
  ++ (if observer then [EvOnRetry exc attempt] else [])
  ++ [EvSleep current_delay].

(** The rounds of attempts [j+1 .. j+m], attempt [i] failing with
    [faults i], the first of them sleeping [current_delay]. *)
Fixpoint retry_rounds (times : Z) (name : string) (backoff : float)
    (observer : bool) (faults : nat -> Exn) (m j : nat)
    (current_delay : float) : list Event :=
  match m with
  | O => []
  | S m' =>
      retry_round times name observer (Z.of_nat (S j)) (faults (S j))
        current_delay
      ++ retry_rounds times name backoff observer faults m' (S j)
           (current_delay * backoff)%float
  end.

(** The loop the four polling helpers share: while the clock is below
    the deadline, one probe (a scripted call), its outcome put to the
    predicate, and a pause.  Each helper's own loop is this one with its
    probe and its pause. *)
Fixpoint polling_loop {T} (fuel : nat) (probe : nat -> Res T)
    (condition : T -> Res bool) (pause : M unit) (deadline : float)
    (last_result : option T) : M (LoopExit T (option T)) :=
  match fuel with
  | O => hang
  | S fuel' =>
      (now <- monotonic ;;
       if (now <? deadline)%float then
         v <- invoke probe ;;
         c <- pure_call (condition v) ;;
         if c : bool then ret (Returned v)
         else
           pause ;;
           polling_loop fuel' probe condition pause deadline (Some v)
       else ret (FellThrough last_result))%py64
  end.

(** A loop exit without its value and locals. *)
Definition forget {X L} (r : Res (LoopExit X L) * World)
  : Res (LoopExit unit unit) * World :=
  (match fst r with
   | Ok (Returned _) => Ok (Returned tt)
   | Ok (FellThrough _) => Ok (FellThrough tt)
   | Raise e => Raise e
   | Hang => Hang
   end, snd r).

(** The pause of a polling loop lasts [interval] in every world with the
    surroundings of [w]. *)
Definition pauses_for (pause : M unit) (interval : float) (w : World)
  : Prop :=
  forall w', env w' = env w -> pause w' = (Ok tt, slept interval w').


(** Two worlds that differ at most in the wall clock and in how it is
    set from outside. *)
Definition same_but_wall (w1 w2 : World) : Prop :=
  mono w1 = mono w2 /\ calls w1 = calls w2 /\ trace w1 = trace w2
  /\ sleep_refusal (env w1) = sleep_refusal (env w2)
  /\ timer (env w1) = timer (env w2).

(** The value of a finite float, exactly. *)
Definition float_to_Q (x : float) : Q :=
  match Prim2SF x with
  | S754_finite s m e =>
      let v :=
        if (0 <=? e)%Z then inject_Z (Zpos m * 2 ^ e)
        else (Zpos m # Pos.pow 2 (Z.to_pos (- e)))%Q in
      if s then Qopp v else v
  | _ => 0%Q
  end.

(** [repr] of a float, for the floats [float_repr] is right on. *)
Definition float_str (x : float) : string :=
  match Prim2SF x with
  | S754_nan => "nan"
  | S754_infinity s => if s then "-inf" else "inf"
  | S754_zero s => if s then "-0.0" else "0.0"
  | S754_finite _ _ _ => float_repr (float_to_Q x)
  end.

End Binary64.

(** ** Basic facts *)


Lemma Qltb_ge (x y : Q) : Qltb x y = false <-> (y <= x)%Q.
Proof. unfold Qltb, Qle. apply Z.ltb_ge. Qed.

Lemma range_nil (lo hi : Z) : hi <= lo -> range lo hi = [].
Proof.
  intros H. unfold range.
  replace (Z.to_nat (hi - lo)) with 0%nat by lia. reflexivity.
Qed.

Lemma range_cons (lo hi : Z) : lo < hi -> range lo hi = lo :: range (lo + 1) hi.
Proof.
  intros H. unfold range.
  replace (Z.to_nat (hi - lo)) with (S (Z.to_nat (hi - (lo + 1)))) by lia.
  cbn [seq map]. f_equal; [lia|].
  rewrite <- seq_shift, map_map.
  apply map_ext. intros i. lia.
Qed.

Lemma events_since_app (w w' : World) (evs : list Event) :
  trace w' = trace w ++ evs -> events_since w w' = evs.
Proof.
  intros H. unfold events_since. rewrite H.
  rewrite skipn_app, skipn_all, Nat.sub_diag. reflexivity.
Qed.

Lemma sleeps_app (xs ys : list Event) : sleeps (xs ++ ys) = sleeps xs ++ sleeps ys.
Proof.
  induction xs as [|ev xs IH]; [reflexivity|].
  destruct ev; cbn; rewrite IH; reflexivity.
Qed.

Lemma on_retry_count_app (xs ys : list Event) :
  on_retry_count (xs ++ ys) = (on_retry_count xs + on_retry_count ys)%nat.
Proof. unfold on_retry_count. now rewrite filter_app, length_app. Qed.

Lemma call_count_app (xs ys : list Event) :
  call_count (xs ++ ys) = (call_count xs + call_count ys)%nat.
Proof. unfold call_count. now rewrite filter_app, length_app. Qed.

Lemma sleep_count_app (xs ys : list Event) :
  sleep_count (xs ++ ys) = (sleep_count xs + sleep_count ys)%nat.
Proof. unfold sleep_count. now rewrite sleeps_app, length_app. Qed.

(** ** The retry loop, one attempt at a time *)

Section RetryFacts.
Context {A : Type}.
Variable times : Z.
Variable backoff : Q.
Variable exceptions : list ExcClass.
Variable on_retry : option (Exn -> Z -> Res unit).
Variable func : nat -> Res A.

Local Abbreviation loop := (retry_loop times backoff exceptions on_retry func).

Lemma retry_loop_uncaught attempt rest cur last w e :
  func (S (calls w)) = Raise e ->
  isinstance e exceptions = false ->
  loop (attempt :: rest) cur last w = (Raise e, called w).
Proof.
  intros Hf He. cbn [retry_loop]. unfold try_except, bind, invoke.
  rewrite Hf, He. reflexivity.
Qed.

(** Whatever the operation and the observer do, the suspensions of the
    loop are the first terms of the geometric sequence, and there are
    fewer of them than attempts. *)
Lemma retry_loop_sleeps n : forall a cur last w,
  n = Z.to_nat (times + 1 - a) ->
  exists evs s,
    trace (snd (loop (range a (times + 1)) cur last w)) = trace w ++ evs
    /\ sleeps evs = geometric backoff s cur
    /\ (s <= n - 1)%nat.
Proof.
  induction n as [|n IH]; intros a cur last w Hn.
  - rewrite range_nil by lia. exists [], 0%nat. cbn.
    rewrite app_nil_r. repeat split. lia.
  - rewrite range_cons by lia.
    cbn [retry_loop]. unfold try_except at 1, bind at 1, invoke.
    assert (Hstop : exists evs s,
               trace (called w) = trace w ++ evs
               /\ sleeps evs = geometric backoff s cur /\ (s <= S n - 1)%nat).
    { exists [EvCall], 0%nat. repeat split. lia. }
    destruct (func (S (calls w))) as [v|e|]; cbn [fst snd]; try exact Hstop.
    destruct (isinstance e exceptions); cbn [fst snd]; try exact Hstop.
    destruct (a =? times) eqn:Ha; cbn [ret fst snd]; try exact Hstop.
    apply Z.eqb_neq in Ha.
    unfold logger_warning, call_on_retry, sleep, log, pure_call, bind.
    cbn [mono wall calls trace].
    destruct on_retry as [cb|].
    + destruct (cb e a); cbn [snd trace].
      * destruct (Qltb cur 0); cbn [snd trace].
        -- exists [EvCall; EvWarning a times e cur; EvOnRetry e a], 0%nat.
           rewrite <- !app_assoc. repeat split. lia.
        -- match goal with
           | |- context [retry_loop _ _ _ _ _ ?r ?c ?l ?w1] =>
               destruct (IH (a + 1) c l w1 ltac:(lia)) as (evs & s & Ht & Hs & Hle)
           end.
           exists ([EvCall; EvWarning a times e cur; EvOnRetry e a; EvSleep cur] ++ evs), (S s).
           rewrite Ht. cbn [trace]. rewrite <- !app_assoc.
           split; [reflexivity|]. split; [|lia].
           cbn. rewrite Hs. reflexivity.
      * exists [EvCall; EvWarning a times e cur; EvOnRetry e a], 0%nat.
        rewrite <- !app_assoc. repeat split. lia.
      * exists [EvCall; EvWarning a times e cur; EvOnRetry e a], 0%nat.
        rewrite <- !app_assoc. repeat split. lia.
    + cbn [ret]. destruct (Qltb cur 0); cbn [snd trace].
      * exists [EvCall; EvWarning a times e cur], 0%nat.
        rewrite <- !app_assoc. repeat split. lia.
      * match goal with
        | |- context [retry_loop _ _ _ _ _ ?r ?c ?l ?w1] =>
            destruct (IH (a + 1) c l w1 ltac:(lia)) as (evs & s & Ht & Hs & Hle)
        end.
        exists ([EvCall; EvWarning a times e cur; EvSleep cur] ++ evs), (S s).
        rewrite Ht. cbn [trace]. rewrite <- !app_assoc.
        split; [reflexivity|]. split; [|lia].
        cbn. rewrite Hs. reflexivity.
Qed.

End RetryFacts.

(** ** retry: the specification's properties that do not depend on the
       arithmetic *)

(** C3.  With [times > 1] and a set of retried classes: when the first
    attempt raises a fault outside that set, the wrapper raises that fault
    at once.  The run consists of the one invocation of the operation: no
    observer call, no sleep, no second attempt, the clock untouched. *)
Theorem retry_propagates_unlisted_fault :
  forall (A : Type) (times : Z) (delay backoff : Q)
         (exceptions : list ExcClass)
         (on_retry : option (Exn -> Z -> Res unit))
         (func : nat -> Res A) (w : World) (e : Exn),
    1 < times ->
    func (S (calls w)) = Raise e ->
    isinstance e exceptions = false ->
    let run := retry times delay backoff exceptions on_retry func in
    run w = (Raise e, called w)
    /\ run_events run w = [EvCall]
    /\ on_retry_count (run_events run w) = 0%nat
    /\ sleep_count (run_events run w) = 0%nat
    /\ call_count (run_events run w) = 1%nat
    /\ mono (snd (run w)) = mono w.
Proof.
  intros A times delay backoff exceptions on_retry func w e Ht Hf He run.
  assert (Hres : run w = (Raise e, called w)).
  { unfold run, retry, wrapper, bind.
    rewrite (range_cons 1) by lia.
    rewrite (retry_loop_uncaught _ _ _ _ _ _ _ _ _ _ e Hf He). reflexivity. }
  unfold run_events. rewrite Hres. cbn [snd].
  rewrite (events_since_app w (called w) [EvCall]) by reflexivity.
  repeat split.
Qed.

Lemma retry_propagates_unlisted_fault_witness :
  let run := retry (A:=Z) 3 1 2 [OSError] (Some quiet) (always_raise boom) in
  run world0 = (Raise boom, called world0)
  /\ run_events run world0 = [EvCall]
  /\ on_retry_count (run_events run world0) = 0%nat
  /\ sleep_count (run_events run world0) = 0%nat
  /\ call_count (run_events run world0) = 1%nat
  /\ mono (snd (run world0)) = mono world0.
Proof.
  apply (retry_propagates_unlisted_fault Z 3 1 2 [OSError] (Some quiet)
           (always_raise boom) world0 boom).
  - lia.
  - reflexivity.
  - reflexivity.
Defined.

(** C10.  With [times <= 0] the wrapper never invokes the operation: the
    world is left as it was, and the [raise last_exc] after the loop
    raises [None], which is a [TypeError].  The loop is left with a fault
    in [last_exc] only when [times >= 1]. *)
Theorem retry_without_attempts :
  forall (A : Type) (times : Z) (delay backoff : Q)
         (exceptions : list ExcClass)
         (on_retry : option (Exn -> Z -> Res unit))
         (func : nat -> Res A) (w : World),
    (times <= 0 ->
     retry_loop times backoff exceptions on_retry func
       (range 1 (times + 1)) delay None w
     = (Ok (FellThrough None), w)
     /\ retry times delay backoff exceptions on_retry func w
        = (Raise (mkExn TypeError "exceptions must derive from BaseException"),
           w))
    /\ (forall e w',
          retry_loop times backoff exceptions on_retry func
            (range 1 (times + 1)) delay None w
          = (Ok (FellThrough (Some e)), w') ->
          1 <= times).
Proof.
  intros A times delay backoff exceptions on_retry func w. split.
  - intros Ht. unfold retry, wrapper, bind.
    rewrite range_nil by lia. split; reflexivity.
  - intros e w' Hrun.
    destruct (Z_le_gt_dec times 0) as [Hle|Hgt]; [|lia].
    rewrite range_nil in Hrun by lia. discriminate Hrun.
Qed.

Lemma retry_without_attempts_witness :
  (retry_loop (A:=Z) 0 2 [Exception] (Some quiet) (always_raise boom)
     (range 1 (0 + 1)) 1 None world0
   = (Ok (FellThrough None), world0)
   /\ retry (A:=Z) 0 1 2 [Exception] (Some quiet) (always_raise boom) world0
      = (Raise (mkExn TypeError "exceptions must derive from BaseException"),
         world0))
  /\ 1 <= 1.
Proof.
  destruct (retry_without_attempts Z 0 1 2 [Exception] (Some quiet)
              (always_raise boom) world0) as [Hnone _].
  destruct (retry_without_attempts Z 1 1 2 [Exception] (Some quiet)
              (always_raise boom) world0) as [_ Hsome].
  split.
  - apply Hnone. lia.
  - apply (Hsome boom (called world0)). reflexivity.
Defined.

(** ** The asyncio loops and the synchronous ones *)



(** * Further properties of the code, in the exact model *)

(** ** retry: every run, whatever the operation and the observer do *)

Section RetryShape.
Context {A : Type}.
Variable times : Z.
Variable backoff : Q.
Variable exceptions : list ExcClass.
Variable on_retry : option (Exn -> Z -> Res unit).
Variable func : nat -> Res A.

Local Ltac shape_leaf evs :=
  exists evs; cbn [fst snd called calls trace];
  rewrite <- ?app_assoc;
  repeat split; cbn; rewrite ?app_nil_r, ?Nat.add_0_r, ?Nat.add_1_r;
  try reflexivity; try lia; try discriminate; try congruence.

Lemma retry_loop_shape n : forall a cur last w r,
  n = Z.to_nat (times + 1 - a) ->
  retry_loop times backoff exceptions on_retry func
    (range a (times + 1)) cur last w = r ->
  exists evs,
    trace (snd r) = trace w ++ evs
    /\ calls (snd r) = (calls w + call_count evs)%nat
    /\ (call_count evs <= n)%nat
    /\ ((1 <= n)%nat -> (1 <= call_count evs)%nat)
    /\ (on_retry_count evs <= n - 1)%nat
    /\ (sleep_count evs <= call_count evs - 1)%nat
    /\ (forall v, fst r = Ok (Returned v) ->
          func (calls w + call_count evs)%nat = Ok v).
Proof.
  induction n as [|n IH]; intros a cur last w r Hn Hr.
  - rewrite range_nil in Hr by lia. cbn in Hr. subst r.
    shape_leaf (@nil Event).
  - rewrite range_cons in Hr by lia.
    cbn [retry_loop] in Hr. unfold try_except at 1, bind at 1, invoke in Hr.
    fold (called w) in Hr.
    destruct (func (S (calls w))) as [v|e|] eqn:Hf; cbn [ret] in Hr.
    + subst r. shape_leaf [EvCall].
    + destruct (isinstance e exceptions);
        [|subst r; shape_leaf [EvCall]].
      destruct (a =? times) eqn:Ha; cbn [ret] in Hr;
        [subst r; shape_leaf [EvCall]|].
      apply Z.eqb_neq in Ha.
      unfold logger_warning, call_on_retry, sleep, log, pure_call, bind in Hr.
      cbn [mono wall calls trace called] in Hr.
      destruct on_retry as [cb|].
      * destruct (cb e a) as [[]|e'|];
          [|subst r;
            shape_leaf [EvCall; EvWarning a times e cur; EvOnRetry e a]
           |subst r;
            shape_leaf [EvCall; EvWarning a times e cur; EvOnRetry e a]].
        cbn [mono wall calls trace] in Hr.
        destruct (Qltb cur 0);
          [subst r;
           shape_leaf [EvCall; EvWarning a times e cur; EvOnRetry e a]|].
        destruct (IH (a + 1) _ _ _ r ltac:(lia) Hr)
          as (evs & Ht & Hc & Hcn & Hc1 & Hon & Hsl & Hret).
        cbn [calls trace] in Ht, Hc, Hret.
        specialize (Hc1 ltac:(lia)).
        exists ([EvCall; EvWarning a times e cur; EvOnRetry e a; EvSleep cur]
                ++ evs).
        rewrite Ht, Hc. rewrite <- !app_assoc.
        rewrite call_count_app, on_retry_count_app, sleep_count_app.
        cbn. repeat split; try lia.
        intros v Hv. specialize (Hret v Hv).
        replace (calls w + S (call_count evs))%nat
          with (S (calls w) + call_count evs)%nat by lia.
        exact Hret.
      * cbn [ret mono wall calls trace] in Hr.
        destruct (Qltb cur 0);
          [subst r; shape_leaf [EvCall; EvWarning a times e cur]|].
        destruct (IH (a + 1) _ _ _ r ltac:(lia) Hr)
          as (evs & Ht & Hc & Hcn & Hc1 & Hon & Hsl & Hret).
        cbn [calls trace] in Ht, Hc, Hret.
        specialize (Hc1 ltac:(lia)).
        exists ([EvCall; EvWarning a times e cur; EvSleep cur] ++ evs).
        rewrite Ht, Hc. rewrite <- !app_assoc.
        rewrite call_count_app, on_retry_count_app, sleep_count_app.
        cbn. repeat split; try lia.
        intros v Hv. specialize (Hret v Hv).
        replace (calls w + S (call_count evs))%nat
          with (S (calls w) + call_count evs)%nat by lia.
        exact Hret.
    + subst r. shape_leaf [EvCall].
Qed.

End RetryShape.

Section RetryRounds.
Context {A : Type}.
Variable times : Z.
Variable backoff : Q.
Variable exceptions : list ExcClass.
Variable on_retry : option (Exn -> Z -> Res unit).
Variable func : nat -> Res A.
Variable faults : nat -> Exn.

End RetryRounds.

Lemma retry_world {A} times delay backoff exceptions on_retry
    (func : nat -> Res A) w :
  snd (retry times delay backoff exceptions on_retry func w)
  = snd (retry_loop times backoff exceptions on_retry func
           (range 1 (times + 1)) delay None w).
Proof.
  unfold retry, wrapper, bind.
  destruct (retry_loop times backoff exceptions on_retry func
              (range 1 (times + 1)) delay None w) as [[[v|[e|]]|e|] w'];
    reflexivity.
Qed.

Lemma retry_returned {A} times delay backoff exceptions on_retry
    (func : nat -> Res A) w v :
  fst (retry times delay backoff exceptions on_retry func w) = Ok v ->
  fst (retry_loop times backoff exceptions on_retry func
         (range 1 (times + 1)) delay None w) = Ok (Returned v).
Proof.
  unfold retry, wrapper, bind.
  destruct (retry_loop times backoff exceptions on_retry func
              (range 1 (times + 1)) delay None w) as [[[v'|[e|]]|e|] w'];
    cbn; intros H; try discriminate H.
  congruence.
Qed.

(** X1.  With [times = 1] the wrapper is the bare call: the operation is
    invoked once and its outcome, value or fault, caught class or not, is
    the wrapper's; nothing is logged, observed or slept. *)
Theorem retry_single_attempt_is_bare_call :
  forall (A : Type) (delay backoff : Q) (exceptions : list ExcClass)
         (on_retry : option (Exn -> Z -> Res unit)) (func : nat -> Res A)
         (w : World),
    retry 1 delay backoff exceptions on_retry func w = invoke func w.
Proof.
  intros A delay backoff exceptions on_retry func w.
  unfold retry, wrapper, bind.
  rewrite (range_cons 1) by lia. rewrite range_nil by lia.
  cbn [retry_loop]. unfold try_except, bind, invoke.
  destruct (func (S (calls w))) as [v|e|]; try reflexivity.
  destruct (isinstance e exceptions); reflexivity.
Qed.

(** X2.  Whatever the operation and the observer do, a run of the wrapper
    invokes the operation at most [times] times, and at least once when
    [times >= 1]; the observer is invoked at most [times - 1] times, and
    there is at least one more invocation of the operation than there are
    sleeps (the wrapper never sleeps after its last attempt). *)
Theorem retry_attempt_bounds :
  forall (A : Type) (times : Z) (delay backoff : Q)
         (exceptions : list ExcClass)
         (on_retry : option (Exn -> Z -> Res unit)) (func : nat -> Res A)
         (w : World),
    let run := retry times delay backoff exceptions on_retry func in
    (call_count (run_events run w) <= Z.to_nat times)%nat
    /\ (1 <= times -> (1 <= call_count (run_events run w))%nat)
    /\ (on_retry_count (run_events run w) <= Z.to_nat times - 1)%nat
    /\ (sleep_count (run_events run w)
        <= call_count (run_events run w) - 1)%nat
    /\ calls (snd (run w)) = (calls w + call_count (run_events run w))%nat.
Proof.
  intros A times delay backoff exceptions on_retry func w run.
  destruct (retry_loop_shape times backoff exceptions on_retry func
              (Z.to_nat times) 1 delay None w _ ltac:(f_equal; lia) eq_refl)
    as (evs & Ht & Hc & Hcn & Hc1 & Hon & Hsl & _).
  unfold run_events, run. rewrite retry_world.
  rewrite (events_since_app _ _ _ Ht).
  repeat split; try assumption. intros H1. apply Hc1. lia.
Qed.

Lemma retry_attempt_bounds_witness :
  let run := retry 3 1 2 [Exception] (Some quiet) (flaky 5 boom 7) in
  (call_count (run_events run world0) <= 3)%nat
  /\ (1 <= call_count (run_events run world0))%nat
  /\ (on_retry_count (run_events run world0) <= 2)%nat.
Proof.
  destruct (retry_attempt_bounds Z 3 1 2 [Exception] (Some quiet)
              (flaky 5 boom 7) world0) as (H1 & H2 & H3 & _).
  split; [exact H1|]. split; [apply H2; lia|exact H3].
Defined.

(** X7.  The wrapper invents no result: whenever it returns [v], whatever
    the operation and the observer did before, [v] is what the last
    invocation of the operation returned, and there was such an
    invocation. *)
Theorem retry_success_is_operation_result :
  forall (A : Type) (times : Z) (delay backoff : Q)
         (exceptions : list ExcClass)
         (on_retry : option (Exn -> Z -> Res unit)) (func : nat -> Res A)
         (w : World) (v : A),
    let run := retry times delay backoff exceptions on_retry func in
    fst (run w) = Ok v ->
    func (calls (snd (run w))) = Ok v
    /\ (calls w < calls (snd (run w)))%nat
    /\ 1 <= times.
Proof.
  intros A times delay backoff exceptions on_retry func w v run Hok.
  apply retry_returned in Hok.
  destruct (retry_loop_shape times backoff exceptions on_retry func
              (Z.to_nat times) 1 delay None w _ ltac:(f_equal; lia) eq_refl)
    as (evs & Ht & Hc & Hcn & Hc1 & Hon & Hsl & Hret).
  unfold run. rewrite retry_world, Hc.
  specialize (Hret v Hok).
  destruct (Z_le_gt_dec times 0) as [Hle|Hgt].
  - rewrite range_nil in Hok by lia. discriminate Hok.
  - specialize (Hc1 ltac:(lia)). repeat split; [exact Hret|lia|lia].
Qed.

Lemma retry_success_is_operation_result_witness :
  let run := retry 3 1 2 [Exception] (Some quiet) (flaky 2 boom 7) in
  flaky 2 boom 7 (calls (snd (run world0))) = Ok 7
  /\ (calls world0 < calls (snd (run world0)))%nat
  /\ 1 <= 3.
Proof.
  apply (retry_success_is_operation_result Z 3 1 2 [Exception] (Some quiet)
           (flaky 2 boom 7) world0 7).
  reflexivity.
Defined.

(** X8.  With [backoff] equal to 1 the delay is constant: every sleep of
    a run lasts [delay], whatever the operation and the observer do. *)
Theorem retry_constant_delay :
  forall (A : Type) (times : Z) (delay backoff : Q)
         (exceptions : list ExcClass)
         (on_retry : option (Exn -> Z -> Res unit)) (func : nat -> Res A)
         (w : World),
    (backoff == 1)%Q ->
    Forall (fun d => (d == delay)%Q)
      (sleeps (run_events
                 (retry times delay backoff exceptions on_retry func) w)).
Proof.
  intros A times delay backoff exceptions on_retry func w Hb.
  destruct (retry_loop_sleeps times backoff exceptions on_retry func
              (Z.to_nat (times + 1 - 1)) 1 delay None w eq_refl)
    as (evs & s & Ht & Hs & _).
  unfold run_events. rewrite retry_world.
  rewrite (events_since_app _ _ _ Ht), Hs.
  clear Ht Hs. revert delay.
  induction s as [|s IH]; intros delay; cbn [geometric]; constructor.
  - reflexivity.
  - eapply Forall_impl; [|apply IH].
    intros d Hd. cbn beta in Hd. rewrite Hd, Hb. ring.
Qed.

Lemma retry_constant_delay_witness :
  Forall (fun d => (d == 3 # 2)%Q)
    (sleeps (run_events
               (retry (A:=Z) 4 (3 # 2) 1 [Exception] None (always_raise boom))
               world0)).
Proof.
  apply (retry_constant_delay Z 4 (3 # 2) 1 [Exception] None
           (always_raise boom) world0).
  reflexivity.
Defined.

(** ** The polling helpers: every run *)

Section PollShape.
Context {T : Type}.
Variable fn : nat -> Res T.
Variable condition : T -> Res bool.
Variables interval deadline : Q.

(** A value the loop returns was produced by the last call of the
    producer and satisfies the predicate. *)
Lemma poll_until_loop_sound fuel : forall last w r,
  poll_until_loop fuel fn condition interval deadline last w = r ->
  forall v, fst r = Ok (Returned v) ->
    fn (calls (snd r)) = Ok v
    /\ condition v = Ok true
    /\ (calls w < calls (snd r))%nat.
Proof.
  induction fuel as [|fuel IH]; intros last w r Hr v Hv.
  - cbn in Hr. subst r. discriminate Hv.
  - cbn [poll_until_loop] in Hr.
    unfold bind, monotonic, invoke, pure_call, sleep, ret in Hr.
    cbn [fst snd mono wall calls trace] in Hr.
    destruct (Qltb (mono w) deadline);
      [|subst r; discriminate Hv].
    destruct (fn (S (calls w))) as [u| |] eqn:Hf;
      try (subst r; discriminate Hv).
    destruct (condition u) as [[|]| |] eqn:Hc;
      try (subst r; discriminate Hv).
    + subst r. cbn in Hv |- *. injection Hv as <-.
      repeat split; [exact Hf|exact Hc|lia].
    + destruct (Qltb interval 0); [subst r; discriminate Hv|].
      destruct (IH _ _ r Hr v Hv) as (H1 & H2 & H3).
      cbn [calls] in H3. repeat split; [exact H1|exact H2|lia].
Qed.

End PollShape.

Lemma poll_until_world {T} str_float (str_value : T -> string) fuel fn
    condition timeout interval message w :
  snd (poll_until str_float str_value fuel fn condition timeout interval
         message w)
  = snd (poll_until_loop fuel fn condition interval (mono w + timeout)%Q
           None w).
Proof.
  unfold poll_until, bind, monotonic.
  destruct (poll_until_loop fuel fn condition interval (mono w + timeout)%Q
              None w) as [[[v|l]|e|] w'];
    reflexivity.
Qed.

(** X10.  With [timeout <= 0] none of the four helpers probes at all: the
    loop test fails on entry and the helper raises its [TimeoutError] at
    once, leaving the world as it was; for the value-polling helpers the
    text ends with [Last result: None]. *)
Theorem polling_nonpositive_timeout :
  forall (T : Type) (str_float : Q -> string) (str_value : T -> string)
         (timeout interval : Q) (message : string) (w : World) (fuel : nat),
    (timeout <= 0)%Q -> (1 <= fuel)%nat ->
    (forall condition,
       wait_until str_float fuel condition timeout interval message w
       = (Raise (mkExn TimeoutError
                   (message ++ " after " ++ str_float timeout ++ "s")), w))
    /\ (forall fn condition,
          poll_until str_float str_value fuel fn condition timeout interval
            message w
          = (Raise (mkExn TimeoutError
                      (message ++ " after " ++ str_float timeout
                       ++ "s. Last result: " ++ "None")), w))
    /\ (forall condition,
          async_wait_until str_float fuel condition timeout interval
            message w
          = (Raise (mkExn TimeoutError
                      (message ++ " after " ++ str_float timeout ++ "s")),
             w))
    /\ (forall fn condition,
          async_poll_until str_float str_value fuel fn condition timeout
            interval message w
          = (Raise (mkExn TimeoutError
                      (message ++ " after " ++ str_float timeout
                       ++ "s. Last result: " ++ "None")), w)).
Proof.
  intros T str_float str_value timeout interval message w fuel HT Hfuel.
  destruct fuel as [|fuel]; [lia|].
  assert (Hnow : Qltb (mono w) (mono w + timeout) = false)
    by (apply Qltb_ge; lra).
  split; [|split; [|split]]; intros;
    unfold wait_until, poll_until, async_wait_until, async_poll_until;
    cbn [wait_until_loop poll_until_loop async_wait_until_loop
         async_poll_until_loop];
    unfold bind, loop_time, monotonic; rewrite Hnow; reflexivity.
Qed.

Lemma polling_nonpositive_timeout_witness :
  wait_until float_repr 8 (fun _ => Ok true) 0 1 "Condition not met" world0
  = (Raise (mkExn TimeoutError "Condition not met after 0.0s"), world0)
  /\ poll_until float_repr str_int 8 counting (equals 1) (-1) 1
       "Polling condition not met" world0
     = (Raise (mkExn TimeoutError
                 "Polling condition not met after -1.0s. Last result: None"),
        world0).
Proof.
  destruct (polling_nonpositive_timeout Z float_repr str_int 0 1
              "Condition not met" world0 8) as (Hwait & _);
    [discriminate | lia |].
  destruct (polling_nonpositive_timeout Z float_repr str_int (-1) 1
              "Polling condition not met" world0 8) as (_ & Hpoll & _);
    [discriminate | lia |].
  split.
  - apply (Hwait (fun _ => Ok true)).
  - apply (Hpoll counting (equals 1)).
Defined.

(** X11.  [poll_until] invents no value: whenever it returns [v], whatever
    the producer and the predicate did before, [v] is the output of the
    last call of the producer and the predicate accepted it. *)
Theorem poll_until_result_is_accepted_output :
  forall (T : Type) (str_float : Q -> string) (str_value : T -> string)
         (fn : nat -> Res T) (condition : T -> Res bool)
         (timeout interval : Q) (message : string) (w : World)
         (fuel : nat) (v : T),
    let run :=
      poll_until str_float str_value fuel fn condition timeout interval
        message in
    fst (run w) = Ok v ->
    fn (calls (snd (run w))) = Ok v
    /\ condition v = Ok true
    /\ (calls w < calls (snd (run w)))%nat.
Proof.
  intros T str_float str_value fn condition timeout interval message w
         fuel v run Hok.
  unfold run. rewrite poll_until_world.
  apply (poll_until_loop_sound fn condition interval (mono w + timeout)%Q
           fuel None w _ eq_refl).
  unfold run, poll_until, bind, monotonic in Hok.
  destruct (poll_until_loop fuel fn condition interval (mono w + timeout)%Q
              None w) as [[[v'|l]|e|] w'];
    cbn in Hok |- *; try discriminate Hok.
  congruence.
Qed.

Lemma poll_until_result_is_accepted_output_witness :
  let run :=
    poll_until float_repr str_int 8 counting (equals 3) 30 1
      "Polling condition not met" in
  counting (calls (snd (run world0))) = Ok 3
  /\ equals 3 3 = Ok true
  /\ (calls world0 < calls (snd (run world0)))%nat.
Proof.
  apply (poll_until_result_is_accepted_output Z float_repr str_int counting
           (equals 3) 30 1 "Polling condition not met" world0 8 3).
  reflexivity.
Defined.





(** * utils/assertions.py and the other helpers without effects *)

(** ** Strings and slices *)

Lemma string_length_append (s1 s2 : string) :
  String.length (s1 ++ s2) = (String.length s1 + String.length s2)%nat.
Proof. induction s1 as [|c s1 IH]; cbn; [reflexivity|]. now rewrite IH. Qed.

Lemma substring0_length (s : string) : forall n,
  String.length (substring 0 n s) = Nat.min n (String.length s).
Proof.
  induction s as [|c s IH]; intros [|n]; cbn; try reflexivity.
  now rewrite IH.
Qed.

Lemma substring0_all (s : string) : forall n,
  (String.length s <= n)%nat -> substring 0 n s = s.
Proof.
  induction s as [|c s IH]; intros [|n] H; cbn in *; try reflexivity;
    try lia.
  f_equal. apply IH. lia.
Qed.

Lemma slice_to_nonneg (s : string) (n : Z) :
  0 <= n -> slice_to s n = substring 0 (Z.to_nat n) s.
Proof.
  intros H. unfold slice_to.
  destruct (Z.ltb_spec n 0) as [Hlt|_]; [lia|reflexivity].
Qed.

(** The shape both truncating helpers share: a short text is kept, a long
    one is cut to [max_len] characters and marked. *)
Lemma truncated_length (s : string) (max_len : Z) :
  0 <= max_len ->
  Z.of_nat (String.length
              (slice_to s max_len
               ++ (if Z.of_nat (String.length s) >? max_len
                   then "..." else ""))%string)
  <= max_len + 3
  /\ (Z.of_nat (String.length s) <= max_len ->
      (slice_to s max_len
       ++ (if Z.of_nat (String.length s) >? max_len then "..." else ""))
      %string = s).
Proof.
  intros H. rewrite slice_to_nonneg by exact H.
  rewrite string_length_append, substring0_length.
  destruct (Z.gtb_spec (Z.of_nat (String.length s)) max_len) as [Hgt|Hle].
  - split; [cbn; lia | lia].
  - split; [cbn; lia|]. intros _.
    rewrite substring0_all by lia.
    clear. induction s as [|c s IH]; cbn; [reflexivity|]. now rewrite IH.
Qed.

(** X15.  [_safe_body] is safe and bounded.  When the body is not JSON
    (decoding raises an [Exception]) it falls back to the response text
    instead of raising; and for [max_len >= 0] the text it returns is the
    body itself when that has at most [max_len] characters, and otherwise
    its first [max_len] characters followed by three dots: never more than
    [max_len + 3] characters. *)
Theorem safe_body_is_bounded :
  forall (response : Response) (max_len : Z),
    0 <= max_len ->
    json_dumps_body response <> Hang ->
    (forall e, json_dumps_body response = Raise e ->
       isinstance e [Exception] = true) ->
    let body :=
      match json_dumps_body response with
      | Ok b => b
      | _ => text response
      end in
    exists s,
      _safe_body response max_len = Ok s
      /\ Z.of_nat (String.length s) <= max_len + 3
      /\ (Z.of_nat (String.length body) <= max_len -> s = body)
      /\ (max_len < Z.of_nat (String.length body) ->
          s = (substring 0 (Z.to_nat max_len) body ++ "...")%string).
Proof.
  intros response max_len Hmax Hhang Hexc body.
  destruct (truncated_length body max_len Hmax) as (Hlen & Hshort).
  exists (slice_to body max_len
          ++ (if Z.of_nat (String.length body) >? max_len
              then "..." else ""))%string.
  split.
  - unfold _safe_body, res_try_except, body.
    destruct (json_dumps_body response) as [b|e|] eqn:Hj.
    + reflexivity.
    + rewrite (Hexc e eq_refl). reflexivity.
    + contradiction.
  - split; [exact Hlen|]. split; [exact Hshort|].
    intros Hlong. rewrite slice_to_nonneg by exact Hmax.
    destruct (Z.gtb_spec (Z.of_nat (String.length body)) max_len);
      [reflexivity|lia].
Qed.

Lemma safe_body_is_bounded_witness :
  exists s,
    _safe_body
      (mkResponse 502 (Ok "http://localhost:3000/api"%string)
         (Raise (mkExn ValueError "Expecting value")) "Bad Gateway") 3
    = Ok s
    /\ Z.of_nat (String.length s) <= 3 + 3
    /\ (Z.of_nat (String.length "Bad Gateway") <= 3 -> s = "Bad Gateway"%string)
    /\ (3 < Z.of_nat (String.length "Bad Gateway") ->
        s = (substring 0 (Z.to_nat 3) "Bad Gateway" ++ "...")%string).
Proof.
  apply (safe_body_is_bounded
           (mkResponse 502 (Ok "http://localhost:3000/api"%string)
              (Raise (mkExn ValueError "Expecting value")) "Bad Gateway") 3).
  - lia.
  - discriminate.
  - intros e He. injection He as <-. reflexivity.
Defined.




(** X17.  [_truncate] of the API client is bounded: for [max_len >= 0]
    the text it logs has at most [max_len + 3] characters; [None] gives
    the empty text, a rendering of at most [max_len] characters is kept
    as it is, and a longer one is cut to its first [max_len] characters
    followed by three dots. *)
Theorem truncate_is_bounded :
  forall (X : Type) (render : X -> string) (obj : option X) (max_len : Z),
    0 <= max_len ->
    Z.of_nat (String.length (_truncate render obj max_len)) <= max_len + 3
    /\ (obj = None -> _truncate render obj max_len = ""%string)
    /\ (forall o, obj = Some o ->
          (Z.of_nat (String.length (render o)) <= max_len ->
           _truncate render obj max_len = render o)
          /\ (max_len < Z.of_nat (String.length (render o)) ->
              _truncate render obj max_len
              = (substring 0 (Z.to_nat max_len) (render o) ++ "...")%string)).
Proof.
  intros X render obj max_len Hmax.
  destruct obj as [o|]; cbn [_truncate].
  - destruct (Z.gtb_spec (Z.of_nat (String.length (render o))) max_len)
      as [Hgt|Hle].
    + split.
      * rewrite slice_to_nonneg by exact Hmax.
        rewrite string_length_append, substring0_length. cbn. lia.
      * split; [discriminate|]. intros o' [= <-].
        split; [lia|]. intros _. now rewrite slice_to_nonneg.
    + split; [lia|]. split; [discriminate|]. intros o' [= <-].
      split; [reflexivity|lia].
  - cbn. split; [lia|]. split; [reflexivity|]. intros o H. discriminate H.
Qed.

Lemma truncate_is_bounded_witness :
  Z.of_nat (String.length (_truncate (fun s : string => s) (Some "abcdefgh"%string) 5))
  <= 5 + 3
  /\ _truncate (fun s : string => s) (Some "abcdefgh"%string) 5
     = "abcde..."%string.
Proof.
  destruct (truncate_is_bounded string (fun s => s) (Some "abcdefgh"%string) 5)
    as (Hlen & _ & Hsome); [lia|].
  split; [exact Hlen|].
  destruct (Hsome "abcdefgh"%string eq_refl) as (_ & Hlong).
  apply Hlong. cbn. lia.
Defined.

(** ** sorted *)

Lemma py_le_order (reverse : bool) (x y : Z) :
  py_le reverse x y = true <-> py_order reverse x y.
Proof. unfold py_le, py_order. destruct reverse; apply Z.leb_le. Qed.

Lemma py_order_total (reverse : bool) (x y : Z) :
  py_le reverse x y = false -> py_order reverse y x.
Proof.
  unfold py_le, py_order. destruct reverse; intros H;
    apply Z.leb_gt in H; lia.
Qed.

Lemma insert_sorted_perm reverse x l :
  Permutation (x :: l) (insert_sorted reverse x l).
Proof.
  induction l as [|y l IH]; cbn; [reflexivity|].
  destruct (py_le reverse x y); [reflexivity|].
  rewrite perm_swap. now constructor.
Qed.

Lemma insert_sorted_sorted reverse x l :
  Sorted (py_order reverse) l ->
  Sorted (py_order reverse) (insert_sorted reverse x l).
Proof.
  induction l as [|y l IH]; intros Hs; cbn.
  - repeat constructor.
  - destruct (py_le reverse x y) eqn:Hxy.
    + constructor; [exact Hs|]. constructor. now apply py_le_order.
    + apply py_order_total in Hxy.
      inversion Hs as [|? ? Hs' Hhd]; subst.
      constructor; [now apply IH|].
      destruct l as [|z l]; cbn.
      * now constructor.
      * destruct (py_le reverse x z); constructor; [exact Hxy|].
        now inversion Hhd.
Qed.

(** [sorted] gives the ordered rearrangement of its argument. *)
Lemma sorted_spec reverse l :
  Permutation l (sorted reverse l) /\ Sorted (py_order reverse) (sorted reverse l).
Proof.
  induction l as [|x l [IHp IHs]]; cbn.
  - split; constructor.
  - split.
    + rewrite <- insert_sorted_perm. now constructor.
    + now apply insert_sorted_sorted.
Qed.

Lemma sorted_fixed reverse l :
  Sorted (py_order reverse) l -> sorted reverse l = l.
Proof.
  induction l as [|x l IH]; intros Hs; cbn; [reflexivity|].
  inversion Hs as [|? ? Hs' Hhd]; subst.
  rewrite (IH Hs').
  destruct l as [|y l]; cbn; [reflexivity|].
  inversion Hhd as [|? ? Hxy]; subst.
  apply py_le_order in Hxy. now rewrite Hxy.
Qed.

Lemma list_eqb_eq (a b : list Z) : list_eqb a b = true <-> a = b.
Proof.
  revert b. induction a as [|x a IH]; intros [|y b]; cbn;
    try (split; [discriminate|discriminate]); try tauto.
  rewrite andb_true_iff, Z.eqb_eq, IH.
  split; [intros [-> ->]; reflexivity|intros [= -> ->]; split; reflexivity].
Qed.

(** X18.  [assert_sorted] passes exactly on ordered data.  When every
    item has the key, it returns normally if and only if the values under
    the key are in non-decreasing order (non-increasing with
    [reverse=True]), and raises an [AssertionError] otherwise; when an
    item lacks the key, the [KeyError] of the lookup comes out instead. *)
Theorem assert_sorted_iff_ordered :
  forall (str_list : list Z -> string) (data : list (Dict Z)) (key : string)
         (reverse : bool),
    (forall values, getitems data key = Ok values ->
       (assert_sorted str_list data key reverse = Ok tt
        <-> Sorted (py_order reverse) values)
       /\ (assert_sorted str_list data key reverse = Ok tt
           \/ exists msg,
                assert_sorted str_list data key reverse
                = Raise (mkExn AssertionError msg)))
    /\ (forall e, getitems data key = Raise e ->
          assert_sorted str_list data key reverse = Raise e).
Proof.
  intros str_list data key reverse. split.
  - intros values Hv. unfold assert_sorted. rewrite Hv. cbn [res_bind].
    destruct (list_eqb values (sorted reverse values)) eqn:Heq; cbn [negb].
    + apply list_eqb_eq in Heq. split; [|now left].
      split; [intros _|reflexivity].
      rewrite Heq. apply sorted_spec.
    + split; [|right; eexists; reflexivity].
      split; [discriminate|]. intros Hs. exfalso.
      assert (Ht : list_eqb values (sorted reverse values) = true)
        by (apply list_eqb_eq; symmetry; now apply sorted_fixed).
      congruence.
  - intros e He. unfold assert_sorted. rewrite He. reflexivity.
Qed.

Lemma assert_sorted_iff_ordered_witness :
  let data :=
    [[("id", 3); ("rank", 10)]; [("id", 1); ("rank", 20)];
     [("id", 2); ("rank", 20)]]%string in
  (assert_sorted (fun _ => ""%string) data "rank" false = Ok tt
   <-> Sorted (py_order false) [10; 20; 20])
  /\ assert_sorted (fun _ => ""%string) data "name" false
     = Raise (mkExn KeyError "name").
Proof.
  intros data.
  destruct (assert_sorted_iff_ordered (fun _ => ""%string) data "rank" false)
    as (Hok & _).
  destruct (assert_sorted_iff_ordered (fun _ => ""%string) data "name" false)
    as (_ & Hkey).
  split.
  - apply (Hok [10; 20; 20]). reflexivity.
  - apply Hkey. reflexivity.
Defined.

(** ** unique *)

Lemma nodup_length_le {X} (dec : forall x y : X, {x = y} + {x <> y}) l :
  (List.length (nodup dec l) <= List.length l)%nat.
Proof.
  induction l as [|x l IH]; cbn; [lia|].
  destruct (in_dec dec x l); cbn; lia.
Qed.

Lemma nodup_length_iff {X} (dec : forall x y : X, {x = y} + {x <> y}) l :
  List.length (nodup dec l) = List.length l <-> NoDup l.
Proof.
  split.
  - induction l as [|x l IH]; cbn; intros H; [constructor|].
    destruct (in_dec dec x l) as [Hin|Hnin].
    + pose proof (nodup_length_le dec l). lia.
    + cbn in H. constructor; [exact Hnin|apply IH; lia].
  - intros H. now rewrite nodup_fixed_point.
Qed.

Lemma py_eqb_eq (a b : PyVal) : py_eqb a b = true <-> a = b.
Proof.
  destruct a as [x|x], b as [y|y]; cbn;
    try (split; [discriminate|discriminate]).
  - rewrite Z.eqb_eq. split; [now intros ->|now intros [= ->]].
  - rewrite String.eqb_eq. split; [now intros ->|now intros [= ->]].
Qed.

Lemma py_count_nodup (values : list PyVal) :
  NoDup values ->
  filter (fun v => (1 <? py_count values v)%nat) values = [].
Proof.
  intros Hnd.
  assert (Hc : forall v, (py_count values v <= 1)%nat).
  { intros v. unfold py_count. induction Hnd as [|x l Hx Hnd IH]; cbn; [lia|].
    destruct (py_eqb x v) eqn:E; cbn; [|lia].
    apply py_eqb_eq in E. subst x.
    assert (Hz : filter (fun x => py_eqb x v) l = []).
    { clear -Hx. induction l as [|y l IH]; cbn; [reflexivity|].
      destruct (py_eqb y v) eqn:E.
      - apply py_eqb_eq in E. subst. exfalso. apply Hx. now left.
      - apply IH. intros H. apply Hx. now right. }
    rewrite Hz. cbn. lia. }
  clear Hnd. revert Hc. generalize (py_count values). intros count Hcount.
  induction values as [|x l IH]; [reflexivity|].
  cbn [filter].
  destruct (Nat.ltb_spec 1 (count x)) as [Hlt|_].
  - specialize (Hcount x). lia.
  - exact IH.
Qed.

(** X19.  [assert_unique] compares the values by their renderings.  When
    every item has the key, it returns normally if and only if the
    [str] forms of the values are pairwise different.  So values that are
    all different from each other but share a rendering (the number 1 and
    the text "1") are rejected, and then the list of duplicates in the
    message is empty. *)
Theorem assert_unique_by_rendering :
  forall (str_list : list PyVal -> string) (data : list (Dict PyVal))
         (key : string) (values : list PyVal),
    getitems data key = Ok values ->
    (assert_unique str_list data key = Ok tt
     <-> NoDup (map py_str values))
    /\ (NoDup values -> ~ NoDup (map py_str values) ->
        assert_unique str_list data key
        = Raise (mkExn AssertionError
                   ("Duplicate values for '" ++ key ++ "': " ++ str_list [])
                   %string)).
Proof.
  intros str_list data key values Hv.
  unfold assert_unique. rewrite Hv. cbn [res_bind].
  pose proof (nodup_length_iff string_dec (map py_str values)) as Hiff.
  rewrite length_map in Hiff.
  destruct (Nat.eqb_spec (List.length values)
              (List.length (nodup string_dec (map py_str values))))
    as [E|N]; cbn [negb].
  - split.
    + split; [intros _; apply Hiff; now symmetry|reflexivity].
    + intros _ Hdup. exfalso. apply Hdup, Hiff. now symmetry.
  - split.
    + split; [discriminate|]. intros Hnd. exfalso. apply N.
      symmetry. now apply Hiff.
    + intros Hnd _. now rewrite py_count_nodup.
Qed.

Lemma assert_unique_by_rendering_witness :
  let data := [[("id", PInt 1)]; [("id", PStr "1")]]%string in
  (assert_unique (fun _ => "[]"%string) data "id" = Ok tt
   <-> NoDup (map py_str [PInt 1; PStr "1"]))
  /\ assert_unique (fun _ => "[]"%string) data "id"
     = Raise (mkExn AssertionError "Duplicate values for 'id': []").
Proof.
  intros data.
  destruct (assert_unique_by_rendering (fun _ => "[]"%string) data "id"
              [PInt 1; PStr "1"] eq_refl) as (Hiff & Hdup).
  split; [exact Hiff|]. apply Hdup.
  - constructor; [|constructor; [intros []|constructor]].
    intros [H|[]]. discriminate H.
  - intros H. inversion H as [|? ? Hnin _]; subst. apply Hnin. now left.
Defined.

(** ** contains *)









(** A missing key whose expected value is a [datetime]: the message is
    never built. *)
Example assert_contains_unencodable :
  assert_contains (fun _ => EmptyString) (fun _ => EmptyString)
    [("id", JInt 1)]%string
    [("id", JInt 1); ("created", JObject "datetime" 0)]%string
  = Raise (mkExn TypeError "Object of type datetime is not JSON serializable").
Proof. reflexivity. Qed.

(** ** rstrip *)

Lemma rstrip_slash_no_trailing (v : string) :
  last_char (rstrip_slash v) <> Some "/"%char.
Proof.
  induction v as [|c rest IH]; cbn [rstrip_slash]; [discriminate|].
  destruct (rstrip_slash rest) as [|d r].
  - destruct (Ascii.eqb_spec c "/"); cbn; [discriminate|congruence].
  - exact IH.
Qed.

Lemma rstrip_slash_fixed (v : string) :
  last_char v <> Some "/"%char -> rstrip_slash v = v.
Proof.
  induction v as [|c rest IH]; intros H; [reflexivity|].
  cbn [rstrip_slash]. destruct rest as [|d r].
  - cbn in *. destruct (Ascii.eqb_spec c "/"); [congruence|reflexivity].
  - rewrite IH by exact H. reflexivity.
Qed.

Lemma rstrip_slash_decompose (v : string) :
  exists k, v = (rstrip_slash v ++ slashes k)%string.
Proof.
  induction v as [|c rest (k & Hk)]; [exists 0%nat; reflexivity|].
  cbn [rstrip_slash]. destruct (rstrip_slash rest) as [|d r].
  - cbn in Hk. destruct (Ascii.eqb_spec c "/") as [->|_].
    + exists (S k). cbn. now rewrite <- Hk.
    + exists k. cbn. now rewrite <- Hk.
  - exists k. cbn. cbn in Hk. now rewrite <- Hk.
Qed.

(** X21.  [strip_trailing_slash] removes the trailing slashes and nothing
    else: its result does not end with a slash, the input is the result
    followed by slashes only, a value without a trailing slash is left as
    it is, and stripping twice is stripping once.  The base URL of an
    [ApiClient], taken from the argument or, when that is absent or
    empty, from the settings, never ends with a slash either. *)
Theorem strip_trailing_slash_normalises :
  forall (v : string),
    last_char (strip_trailing_slash v) <> Some "/"%char
    /\ (exists k, v = (strip_trailing_slash v ++ slashes k)%string)
    /\ (last_char v <> Some "/"%char -> strip_trailing_slash v = v)
    /\ strip_trailing_slash (strip_trailing_slash v) = strip_trailing_slash v
    /\ (forall settings_api_base_url,
          last_char (client_base_url (Some v) settings_api_base_url)
          <> Some "/"%char
          /\ client_base_url None settings_api_base_url
             = rstrip_slash settings_api_base_url
          /\ client_base_url (Some ""%string) settings_api_base_url
             = rstrip_slash settings_api_base_url).
Proof.
  intros v. unfold strip_trailing_slash.
  split; [apply rstrip_slash_no_trailing|].
  split; [apply rstrip_slash_decompose|].
  split; [apply rstrip_slash_fixed|].
  split; [apply rstrip_slash_fixed, rstrip_slash_no_trailing|].
  intros settings_api_base_url. unfold client_base_url.
  split; [apply rstrip_slash_no_trailing|]. split; reflexivity.
Qed.

Lemma strip_trailing_slash_normalises_witness :
  strip_trailing_slash "http://localhost:3000"
  = "http://localhost:3000"%string
  /\ strip_trailing_slash (strip_trailing_slash "http://localhost:3000//")
     = strip_trailing_slash "http://localhost:3000//".
Proof.
  destruct (strip_trailing_slash_normalises "http://localhost:3000")
    as (_ & _ & Hfixed & _).
  destruct (strip_trailing_slash_normalises "http://localhost:3000//")
    as (_ & _ & _ & Hidem & _).
  split; [apply Hfixed; discriminate|exact Hidem].
Defined.

(** * utils/data_factory.py: _strong_password *)

Lemma choice_in draws seq pos :
  seq <> [] -> In (fst (choice draws seq pos)) seq.
Proof.
  intros Hne. unfold choice, randbelow. cbn [fst].
  apply nth_In. apply Nat.mod_upper_bound.
  destruct seq; [contradiction|discriminate].
Qed.

Lemma choices_spec draws population k : forall pos,
  population <> [] ->
  List.length (fst (choices draws population k pos)) = k
  /\ Forall (fun c => In c population) (fst (choices draws population k pos)).
Proof.
  induction k as [|k IH]; intros pos Hne; cbn [choices].
  - split; [reflexivity|constructor].
  - pose proof (choice_in draws population pos Hne) as Hc.
    destruct (choice draws population pos) as [c pos'].
    destruct (IH pos' Hne) as (Hlen & Hall).
    destruct (choices draws population k pos') as [rest pos''].
    cbn [fst] in *. split; [cbn; now rewrite Hlen|now constructor].
Qed.

Lemma list_update_length x : forall i v,
  List.length (list_update x i v) = List.length x.
Proof.
  induction x as [|c x IH]; intros [|i] v; cbn; try reflexivity.
  now rewrite IH.
Qed.

Lemma list_update_nth x : forall i v n d,
  (i < List.length x)%nat ->
  nth n (list_update x i v) d = if (n =? i)%nat then v else nth n x d.
Proof.
  induction x as [|c x IH]; intros [|i] v [|n] d Hi; cbn in *;
    try reflexivity; try lia.
  apply IH. lia.
Qed.

Lemma swap_length x i j : List.length (swap x i j) = List.length x.
Proof. unfold swap. now rewrite !list_update_length. Qed.

Lemma swap_nth x i j n :
  (i < List.length x)%nat -> (j < List.length x)%nat ->
  nth n (swap x i j) Ascii.zero
  = if (n =? j)%nat then nth i x Ascii.zero
    else if (n =? i)%nat then nth j x Ascii.zero
    else nth n x Ascii.zero.
Proof.
  intros Hi Hj. unfold swap.
  rewrite list_update_nth by (now rewrite list_update_length).
  destruct (n =? j)%nat; [reflexivity|].
  now rewrite list_update_nth.
Qed.

(** A swap inside the list keeps its elements. *)
Lemma swap_in x i j c :
  (i < List.length x)%nat -> (j < List.length x)%nat ->
  In c (swap x i j) <-> In c x.
Proof.
  intros Hi Hj. split; intros Hin.
  - apply (In_nth _ _ Ascii.zero) in Hin. destruct Hin as (n & Hn & Hc).
    rewrite swap_length in Hn. rewrite swap_nth in Hc by assumption.
    subst c. destruct (n =? j)%nat; [now apply nth_In|].
    destruct (n =? i)%nat; now apply nth_In.
  - apply (In_nth _ _ Ascii.zero) in Hin. destruct Hin as (n & Hn & Hc).
    subst c.
    destruct (Nat.eq_dec n i) as [->|Hni].
    + replace (nth i x Ascii.zero) with (nth j (swap x i j) Ascii.zero)
        by (rewrite swap_nth by assumption; now rewrite Nat.eqb_refl).
      apply nth_In. now rewrite swap_length.
    + destruct (Nat.eq_dec n j) as [->|Hnj].
      * replace (nth j x Ascii.zero) with (nth i (swap x i j) Ascii.zero).
        -- apply nth_In. now rewrite swap_length.
        -- rewrite swap_nth by assumption.
           destruct (Nat.eqb_spec i j) as [->|_]; [reflexivity|].
           now rewrite Nat.eqb_refl.
      * replace (nth n x Ascii.zero) with (nth n (swap x i j) Ascii.zero).
        -- apply nth_In. now rewrite swap_length.
        -- rewrite swap_nth by assumption.
           destruct (Nat.eqb_spec n j); [contradiction|].
           destruct (Nat.eqb_spec n i); [contradiction|reflexivity].
Qed.

Lemma shuffle_loop_spec draws i : forall x pos,
  (i = 0 \/ i < List.length x)%nat ->
  List.length (fst (shuffle_loop draws i x pos)) = List.length x
  /\ forall c, In c (fst (shuffle_loop draws i x pos)) <-> In c x.
Proof.
  induction i as [|i IH]; intros x pos Hi; cbn [shuffle_loop].
  - split; [reflexivity|tauto].
  - unfold randbelow.
    assert (Hlt : (S i < List.length x)%nat) by lia.
    assert (Hj : (draws pos mod S (S i) < List.length x)%nat).
    { pose proof (Nat.mod_upper_bound (draws pos) (S (S i)) ltac:(lia)).
      lia. }
    destruct (IH (swap x (S i) (draws pos mod S (S i))) (S pos))
      as (Hlen & Hin).
    + rewrite swap_length. lia.
    + rewrite swap_length in Hlen. split; [exact Hlen|].
      intros c. rewrite Hin. now apply swap_in.
Qed.

(** X22.  The generated password always meets the policy it is built
    for, whatever the random source yields: it has exactly [length]
    characters when [length >= 4] (and 4 otherwise), at least one
    uppercase letter, one lowercase letter, one digit and one of
    [!@#$%^&*], and no character outside letters, digits and those
    specials. *)
Theorem strong_password_meets_policy :
  forall (draws : nat -> nat) (length : Z) (pos : nat),
    let pwd :=
      list_ascii_of_string (fst (_strong_password draws length pos)) in
    List.length pwd = (4 + Z.to_nat (length - 4))%nat
    /\ (4 <= length -> Z.of_nat (List.length pwd) = length)
    /\ (exists c, In c pwd /\ In c ascii_uppercase)
    /\ (exists c, In c pwd /\ In c ascii_lowercase)
    /\ (exists c, In c pwd /\ In c digits)
    /\ (exists c, In c pwd /\ In c specials)
    /\ Forall (fun c => In c (ascii_letters ++ digits ++ specials)) pwd.
Proof.
  intros draws length pos pwd.
  unfold _strong_password in pwd.
  pose proof (choice_in draws ascii_uppercase pos ltac:(discriminate)) as H1.
  destruct (choice draws ascii_uppercase pos) as [c1 p1].
  pose proof (choice_in draws ascii_lowercase p1 ltac:(discriminate)) as H2.
  destruct (choice draws ascii_lowercase p1) as [c2 p2].
  pose proof (choice_in draws digits p2 ltac:(discriminate)) as H3.
  destruct (choice draws digits p2) as [c3 p3].
  pose proof (choice_in draws specials p3 ltac:(discriminate)) as H4.
  destruct (choice draws specials p3) as [c4 p4].
  destruct (choices_spec draws (ascii_letters ++ digits ++ specials)
              (Z.to_nat (length - 4)) p4 ltac:(discriminate))
    as (Hmlen & Hmall).
  destruct (choices draws (ascii_letters ++ digits ++ specials)
              (Z.to_nat (length - 4)) p4) as [more p5].
  cbn [fst] in H1, H2, H3, H4, Hmlen, Hmall.
  destruct (shuffle_loop_spec draws
              (List.length ([c1; c2; c3; c4] ++ more) - 1)
              ([c1; c2; c3; c4] ++ more) p5) as (Hlen & Hin).
  { cbn. lia. }
  unfold shuffle in pwd.
  destruct (shuffle_loop draws (List.length ([c1; c2; c3; c4] ++ more) - 1)
              ([c1; c2; c3; c4] ++ more) p5) as [shuffled p6].
  cbn [fst] in pwd, Hlen, Hin.
  subst pwd. rewrite list_ascii_of_string_of_list_ascii.
  assert (Hl : List.length shuffled = (4 + Z.to_nat (length - 4))%nat).
  { rewrite Hlen. cbn. now rewrite Hmlen. }
  split; [exact Hl|]. split; [intros Hge; rewrite Hl; lia|].
  split; [exists c1; split; [apply Hin; cbn; tauto|exact H1]|].
  split; [exists c2; split; [apply Hin; cbn; tauto|exact H2]|].
  split; [exists c3; split; [apply Hin; cbn; tauto|exact H3]|].
  split; [exists c4; split; [apply Hin; cbn; tauto|exact H4]|].
  apply Forall_forall. intros c Hc. apply Hin in Hc.
  cbn [app In] in Hc.
  destruct Hc as [<-|[<-|[<-|[<-|Hc]]]].
  - apply in_or_app. left. apply in_or_app. now right.
  - apply in_or_app. left. apply in_or_app. now left.
  - apply in_or_app. right. apply in_or_app. now left.
  - apply in_or_app. right. apply in_or_app. now right.
  - rewrite Forall_forall in Hmall. now apply Hmall.
Qed.

Lemma strong_password_meets_policy_witness :
  Z.of_nat
    (List.length
       (list_ascii_of_string (fst (_strong_password (fun i => 7 * i)%nat 16 0))))
  = 16.
Proof.
  destruct (strong_password_meets_policy (fun i => 7 * i)%nat 16 0)
    as (_ & Hlen & _).
  apply Hlen. lia.
Defined.

(** * utils/retry.py with binary64 floats: the properties

    From here on [retry], [wait_until], [World] and the other names are
    those of the module [Binary64]. *)

Import Binary64.

(** ** Basic facts *)

Lemma b64_events_since_app (w w' : World) (evs : list Event) :
  trace w' = trace w ++ evs -> events_since w w' = evs.
Proof.
  intros H. unfold events_since. rewrite H.
  rewrite skipn_app, skipn_all, Nat.sub_diag. reflexivity.
Qed.

Lemma b64_sleeps_app (xs ys : list Event) :
  sleeps (xs ++ ys) = sleeps xs ++ sleeps ys.
Proof.
  induction xs as [|ev xs IH]; [reflexivity|].
  destruct ev; cbn; rewrite IH; reflexivity.
Qed.


Lemma b64_call_count_app (xs ys : list Event) :
  call_count (xs ++ ys) = (call_count xs + call_count ys)%nat.
Proof. unfold call_count. now rewrite filter_app, length_app. Qed.

Lemma b64_sleep_count_app (xs ys : list Event) :
  sleep_count (xs ++ ys) = (sleep_count xs + sleep_count ys)%nat.
Proof. unfold sleep_count. now rewrite b64_sleeps_app, length_app. Qed.

Lemma b64_on_retry_args_app (xs ys : list Event) :
  on_retry_args (xs ++ ys) = on_retry_args xs ++ on_retry_args ys.
Proof.
  induction xs as [|ev xs IH]; [reflexivity|].
  destruct ev; cbn; rewrite IH; reflexivity.
Qed.

Lemma b64_geometric_length (f : float) (m : nat) (d : float) :
  List.length (geometric f m d) = m.
Proof. revert d. induction m; intros d; cbn; [reflexivity|]. now rewrite IHm. Qed.

Lemma b64_geometric_nth (f : float) (m j : nat) (d : float) :
  (j < m)%nat -> nth j (geometric f m d) 0%float = grow f j d.
Proof.
  revert j d. induction m as [|m IH]; intros j d Hj; [lia|].
  destruct j as [|j]; [reflexivity|].
  cbn [geometric nth grow]. apply IH. lia.
Qed.

Lemma b64_rounds_on_retry_args times name backoff observer faults m :
  forall j d,
    on_retry_args (retry_rounds times name backoff observer faults m j d)
    = if observer
      then map (fun i => (faults i, Z.of_nat i)) (seq (S j) m)
      else [].
Proof.
  induction m as [|m IH]; intros j d.
  - destruct observer; reflexivity.
  - cbn [retry_rounds seq map]. rewrite b64_on_retry_args_app, IH.
    destruct observer; reflexivity.
Qed.

Lemma b64_rounds_call_count times name backoff observer faults m :
  forall j d,
    call_count (retry_rounds times name backoff observer faults m j d) = m.
Proof.
  induction m as [|m IH]; intros j d; [reflexivity|].
  cbn [retry_rounds]. rewrite b64_call_count_app, IH.
  destruct observer; reflexivity.
Qed.


Lemma b64_rounds_sleeps times name backoff observer faults m : forall j d,
  sleeps (retry_rounds times name backoff observer faults m j d)
  = geometric backoff m d.
Proof.
  induction m as [|m IH]; intros j d; [reflexivity|].
  cbn [retry_rounds geometric]. rewrite b64_sleeps_app, IH.
  destruct observer; reflexivity.
Qed.

(** ** The retry loop, one attempt at a time *)

Section RetrySteps.
Context {A : Type}.
Variable times : Z.
Variable backoff : float.
Variable exceptions : list ExcClass.
Variable on_retry : option (Exn -> Z -> Res unit).
Variable func : Callable A.

Local Abbreviation loop := (retry_loop times backoff exceptions on_retry func).

Lemma b64_retry_loop_success attempt rest cur last w v :
  __call__ func (S (calls w)) = Ok v ->
  loop (attempt :: rest) cur last w = (Ok (Returned v), called w).
Proof.
  intros Hf. cbn [retry_loop]. unfold try_except, bind, invoke.
  rewrite Hf. reflexivity.
Qed.

Lemma b64_retry_loop_uncaught attempt rest cur last w e :
  __call__ func (S (calls w)) = Raise e ->
  isinstance e exceptions = false ->
  loop (attempt :: rest) cur last w = (Raise e, called w).
Proof.
  intros Hf He. cbn [retry_loop]. unfold try_except, bind, invoke.
  rewrite Hf, He. reflexivity.
Qed.


(** A caught fault before the last attempt, on an operation without a
    name: the warning is never issued. *)
Lemma b64_retry_loop_nameless attempt rest cur last w e e' :
  __call__ func (S (calls w)) = Raise e ->
  isinstance e exceptions = true ->
  attempt <> times ->
  __name__ func = Raise e' ->
  loop (attempt :: rest) cur last w = (Raise e', called w).
Proof.
  intros Hf He Ha Hn. apply Z.eqb_neq in Ha.
  cbn [retry_loop]. unfold try_except, bind at 1, invoke.
  rewrite Hf, He, Ha.
  unfold logger_warning, pure_call, bind. rewrite Hn. reflexivity.
Qed.

(** A caught fault before the last attempt, the operation having a name,
    the observer returning, the sleep taken. *)
Lemma b64_retry_loop_round attempt rest cur last w e name :
  __call__ func (S (calls w)) = Raise e ->
  isinstance e exceptions = true ->
  attempt <> times ->
  __name__ func = Ok name ->
  match on_retry with
  | Some cb => cb e attempt = Ok tt
  | None => True
  end ->
  sleeps_for w cur ->
  exists w',
    loop (attempt :: rest) cur last w
    = loop rest (cur * backoff)%float (Some e) w'
    /\ calls w' = S (calls w)
    /\ env w' = env w
    /\ trace w'
       = trace w
         ++ retry_round times name (has_observer on_retry) attempt e cur.
Proof.
  intros Hf He Ha Hn Hcb Hcur.
  apply Z.eqb_neq in Ha. unfold sleeps_for in Hcur.
  cbn [retry_loop]. unfold try_except at 1, bind at 1, invoke.
  rewrite Hf, He, Ha.
  unfold logger_warning, call_on_retry, sleep, log, pure_call, bind.
  rewrite Hn. cbn [mono wall calls trace env called].
  destruct on_retry as [cb|].
  - rewrite Hcb. cbn [mono wall calls trace env]. rewrite Hcur.
    eexists. split; [reflexivity|]. cbn [calls trace env slept has_observer].
    split; [reflexivity|]. split; [reflexivity|].
    unfold retry_round. rewrite <- !app_assoc. reflexivity.
  - cbn [ret mono wall calls trace env]. rewrite Hcur.
    eexists. split; [reflexivity|]. cbn [calls trace env slept has_observer].
    split; [reflexivity|]. split; [reflexivity|].
    unfold retry_round. rewrite <- !app_assoc. reflexivity.
Qed.

End RetrySteps.

Section RetryRounds.
Context {A : Type}.
Variable times : Z.
Variable backoff : float.
Variable exceptions : list ExcClass.
Variable on_retry : option (Exn -> Z -> Res unit).
Variable func : Callable A.
Variable name : string.
Variable faults : nat -> Exn.

(** Attempts [j+1 .. j+m] all fail with caught faults and none of them is
    the last: the loop arrives at attempt [j+m+1] with the grown delay,
    having traced exactly these rounds. *)
Lemma b64_retry_loop_rounds m : forall j cur last w c0,
  calls w = (c0 + j)%nat ->
  Z.of_nat (j + m) < times ->
  __name__ func = Ok name ->
  (forall i, (j < i <= j + m)%nat ->
     __call__ func (c0 + i)%nat = Raise (faults i)
     /\ isinstance (faults i) exceptions = true) ->
  observer_returns_on on_retry faults j (j + m) ->
  (forall i, (i < m)%nat -> sleeps_for w (grow backoff i cur)) ->
  exists last' w',
    retry_loop times backoff exceptions on_retry func
      (range (Z.of_nat (S j)) (times + 1)) cur last w
    = retry_loop times backoff exceptions on_retry func
        (range (Z.of_nat (S (j + m))) (times + 1)) (grow backoff m cur)
        last' w'
    /\ calls w' = (c0 + j + m)%nat
    /\ env w' = env w
    /\ trace w'
       = trace w
         ++ retry_rounds times name backoff (has_observer on_retry) faults
              m j cur.
Proof.
  induction m as [|m IH]; intros j cur last w c0 Hc Hm Hn Hf Hcb Hs.
  - exists last, w. rewrite !Nat.add_0_r, app_nil_r. repeat split. exact Hc.
  - destruct (Hf (S j) ltac:(lia)) as (He & Hcatch).
    replace (c0 + S j)%nat with (S (calls w)) in He by lia.
    rewrite (range_cons (Z.of_nat (S j))) by lia.
    destruct (b64_retry_loop_round times backoff exceptions on_retry func
                (Z.of_nat (S j)) (range (Z.of_nat (S j) + 1) (times + 1))
                cur last w (faults (S j)) name He Hcatch ltac:(lia) Hn)
      as (w1 & Hstep & Hc1 & He1 & Ht1).
    { unfold observer_returns_on in Hcb.
      destruct on_retry as [cb|]; [apply Hcb; lia|exact I]. }
    { apply (Hs 0%nat). lia. }
    replace (Z.of_nat (S j) + 1) with (Z.of_nat (S (S j))) in * by lia.
    destruct (IH (S j) (cur * backoff)%float (Some (faults (S j))) w1 c0)
      as (last' & w' & Hrun & Hc' & He' & Ht').
    + lia.
    + lia.
    + exact Hn.
    + intros i Hi. apply Hf. lia.
    + unfold observer_returns_on in *.
      destruct on_retry as [cb|]; [|exact I].
      intros i Hi. apply Hcb. lia.
    + intros i Hi. unfold sleeps_for. rewrite He1.
      apply (Hs (S i)). lia.
    + exists last', w'. rewrite Hstep, Hrun.
      replace (S j + m)%nat with (j + S m)%nat by lia.
      split; [reflexivity|]. split; [lia|]. split; [congruence|].
      rewrite Ht', Ht1. cbn [retry_rounds grow]. rewrite <- app_assoc.
      reflexivity.
Qed.

End RetryRounds.

Section RetrySleeps.
Context {A : Type}.
Variable times : Z.
Variable backoff : float.
Variable exceptions : list ExcClass.
Variable on_retry : option (Exn -> Z -> Res unit).
Variable func : Callable A.

Local Ltac sleeps_leaf evs :=
  exists evs, 0%nat; cbn [snd trace called];
  rewrite <- ?app_assoc; repeat split; lia.

(** Whatever the operation, its name and the observer do, the
    suspensions of the loop are the first delays of the backoff, and
    there are fewer of them than attempts. *)
Lemma b64_retry_loop_sleeps n : forall a cur last w,
  n = Z.to_nat (times + 1 - a) ->
  exists evs s,
    trace (snd (retry_loop times backoff exceptions on_retry func
                  (range a (times + 1)) cur last w))
    = trace w ++ evs
    /\ sleeps evs = geometric backoff s cur
    /\ (s <= n - 1)%nat.
Proof.
  induction n as [|n IH]; intros a cur last w Hn.
  - rewrite range_nil by lia. exists [], 0%nat. cbn.
    rewrite app_nil_r. repeat split. lia.
  - rewrite range_cons by lia.
    cbn [retry_loop]. unfold try_except at 1, bind at 1, invoke.
    destruct (__call__ func (S (calls w))) as [v|e|]; cbn [fst snd ret];
      try sleeps_leaf [EvCall].
    destruct (isinstance e exceptions); cbn [fst snd];
      try sleeps_leaf [EvCall].
    destruct (a =? times) eqn:Ha; cbn [ret fst snd]; try sleeps_leaf [EvCall].
    apply Z.eqb_neq in Ha.
    unfold logger_warning, call_on_retry, sleep, log, pure_call, bind.
    destruct (__name__ func) as [name|e'|]; cbn [fst snd];
      try sleeps_leaf [EvCall].
    cbn [mono wall calls trace env called].
    destruct on_retry as [cb|].
    + destruct (cb e a) as [[]|e'|]; cbn [snd trace mono wall calls env];
        try sleeps_leaf [EvCall; EvWarning a times name e cur; EvOnRetry e a].
      destruct (sleep_refusal (env w) cur); cbn [snd trace];
        try sleeps_leaf [EvCall; EvWarning a times name e cur; EvOnRetry e a].
      match goal with
      | |- context [retry_loop _ _ _ _ _ ?r ?c ?l ?w1] =>
          destruct (IH (a + 1) c l w1 ltac:(lia)) as (evs & s & Ht & Hs & Hle)
      end.
      exists ([EvCall; EvWarning a times name e cur; EvOnRetry e a;
               EvSleep cur] ++ evs), (S s).
      rewrite Ht. cbn [trace slept]. rewrite <- !app_assoc.
      split; [reflexivity|]. split; [|lia].
      cbn. rewrite Hs. reflexivity.
    + cbn [ret mono wall calls trace env].
      destruct (sleep_refusal (env w) cur); cbn [snd trace];
        try sleeps_leaf [EvCall; EvWarning a times name e cur].
      match goal with
      | |- context [retry_loop _ _ _ _ _ ?r ?c ?l ?w1] =>
          destruct (IH (a + 1) c l w1 ltac:(lia)) as (evs & s & Ht & Hs & Hle)
      end.
      exists ([EvCall; EvWarning a times name e cur; EvSleep cur] ++ evs),
             (S s).
      rewrite Ht. cbn [trace slept]. rewrite <- !app_assoc.
      split; [reflexivity|]. split; [|lia].
      cbn. rewrite Hs. reflexivity.
Qed.

End RetrySleeps.

Lemma b64_retry_world {A} times delay backoff exceptions on_retry
    (func : Callable A) w :
  snd (retry times delay backoff exceptions on_retry func w)
  = snd (retry_loop times backoff exceptions on_retry func
           (range 1 (times + 1)) delay None w).
Proof.
  unfold retry, wrapper, bind.
  destruct (retry_loop times backoff exceptions on_retry func
              (range 1 (times + 1)) delay None w) as [[[v|[e|]]|e|] w'];
    reflexivity.
Qed.



(** ** retry: the specification's properties *)







(** C4, as the code has it.  The [j]-th sleep of a run of the wrapper
    lasts the delay after [j-1] multiplications by the factor, each
    product rounded to a float: [((delay * backoff) * backoff) ...], and
    [j] is below the number of attempts; this holds for every delay and
    factor, whatever the operation and the observer do. *)
Theorem retry_backoff_geometry :
  forall (A : Type) (times : Z) (delay backoff : float)
         (exceptions : list ExcClass)
         (on_retry : option (Exn -> Z -> Res unit))
         (func : Callable A) (w : World) (j : nat),
    let run := retry times delay backoff exceptions on_retry func in
    (1 <= j <= sleep_count (run_events run w))%nat ->
    nth (j - 1) (sleeps (run_events run w)) 0%float
    = grow backoff (j - 1) delay
    /\ Z.of_nat j < times.
Proof.
  intros A times delay backoff exceptions on_retry func w j run Hj.
  destruct (b64_retry_loop_sleeps times backoff exceptions on_retry func
              (Z.to_nat (times + 1 - 1)) 1 delay None w eq_refl)
    as (evs & s & Ht & Hs & Hle).
  assert (Hev : run_events run w = evs).
  { unfold run_events, run. rewrite b64_retry_world.
    now apply b64_events_since_app. }
  rewrite Hev in Hj |- *. unfold sleep_count in Hj.
  rewrite Hs in Hj |- *. rewrite b64_geometric_length in Hj.
  split; [apply b64_geometric_nth; lia | lia].
Qed.

(** With delay 1, factor 2, four attempts and an operation that always
    fails the sleeps are 1, 2 and 4: these products are exact. *)
Lemma retry_backoff_geometry_witness :
  let run :=
    retry (A:=Z) 4 1 2 [Exception] None
      (def_function "fetch" (always_raise boom)) in
  sleeps (run_events run world0) = [1; 2; 4]%float
  /\ nth 2 (sleeps (run_events run world0)) 0%float = ((1 * 2) * 2)%float
  /\ 3 < 4.
Proof.
  split; [reflexivity|].
  apply (retry_backoff_geometry Z 4 1 2 [Exception] None
           (def_function "fetch" (always_raise boom)) world0 3).
  vm_compute. lia.
Defined.

(** C4 as the specification words it fails when a product is rounded:
    with delay 0.1 and factor 3.0 the sleeps are 0.1,
    0.30000000000000004 and 0.9000000000000001.  The third is neither
    the float [0.1 * 3.0 ** 2], which is 0.9, nor the number
    [0.1 * 3 ^ 2] taken exactly. *)
Lemma retry_backoff_rounding_counterexample :
  let run :=
    retry (A:=Z) 4 tenth 3 [Exception] None
      (def_function "fetch" (always_raise boom)) in
  let third := nth 2 (sleeps (run_events run world0)) 0%float in
  sleeps (run_events run world0)
  = [tenth; (tenth * 3)%float; ((tenth * 3) * 3)%float]
  /\ (third =? tenth * float_pow 3 2)%float = false
  /\ (tenth * float_pow 3 2 =? 9 / 10)%float = true
  /\ ~ (float_to_Q third == float_to_Q tenth * float_to_Q 3 ^ 2)%Q.
Proof.
  cbv zeta. split; [reflexivity|]. split; [reflexivity|].
  split; [reflexivity|]. vm_compute. discriminate.
Qed.

(** ** retry: further properties *)

(** X3.  A fault outside the retried classes is not retried at whatever
    attempt it comes.  For an operation that has a [__name__]: when
    attempts [1..k-1] raise caught faults and attempt [k <= times] raises
    a fault [e] outside the set, the wrapper raises [e] after exactly [k]
    invocations; the trace is the [k-1] rounds (call, warning, observer,
    sleep) followed by that last call.  The delays slept are lengths
    [time.sleep] takes, and the observer returns normally. *)
Theorem retry_unlisted_fault_at_attempt :
  forall (A : Type) (times : Z) (delay backoff : float)
         (exceptions : list ExcClass)
         (on_retry : option (Exn -> Z -> Res unit)) (func : Callable A)
         (name : string) (faults : nat -> Exn) (w : World) (k : nat)
         (e : Exn),
    (1 <= k)%nat -> Z.of_nat k <= times ->
    __name__ func = Ok name ->
    (forall i, (i < k - 1)%nat -> sleeps_for w (grow backoff i delay)) ->
    (forall i, (0 < i <= k - 1)%nat ->
       __call__ func (calls w + i)%nat = Raise (faults i)
       /\ isinstance (faults i) exceptions = true) ->
    observer_returns_on on_retry faults 0 (k - 1) ->
    __call__ func (calls w + k)%nat = Raise e ->
    isinstance e exceptions = false ->
    let run := retry times delay backoff exceptions on_retry func in
    fst (run w) = Raise e
    /\ run_events run w
       = retry_rounds times name backoff (has_observer on_retry) faults
           (k - 1) 0 delay ++ [EvCall]
    /\ call_count (run_events run w) = k.
Proof.
  intros A times delay backoff exceptions on_retry func name faults w k e
         Hk Hkn Hname Hsleep Hf Hcb Hlast He run.
  destruct (b64_retry_loop_rounds times backoff exceptions on_retry func name
              faults (k - 1) 0 delay None w (calls w))
    as (last' & w' & Hrun & Hc & _ & Ht); try assumption; try lia.
  assert (Hcall : __call__ func (S (calls w')) = Raise e).
  { rewrite Hc. replace (S (calls w + 0 + (k - 1))) with (calls w + k)%nat
      by lia. exact Hlast. }
  assert (Hres : run w = (Raise e, called w')).
  { unfold run, retry, wrapper, bind.
    change (Z.of_nat 1) with 1 in Hrun.
    rewrite Hrun. rewrite range_cons by lia.
    rewrite (b64_retry_loop_uncaught _ _ _ _ _ _ _ _ _ _ e Hcall He).
    reflexivity. }
  unfold run_events. rewrite Hres. cbn [fst snd].
  rewrite (b64_events_since_app w (called w')
             (retry_rounds times name backoff (has_observer on_retry) faults
                (k - 1) 0 delay ++ [EvCall]))
    by (cbn [called trace]; rewrite Ht, app_assoc; reflexivity).
  split; [reflexivity|]. split; [reflexivity|].
  rewrite b64_call_count_app, b64_rounds_call_count. cbn. lia.
Qed.

Lemma retry_unlisted_fault_at_attempt_witness :
  let run :=
    retry (A:=Z) 5 1 2 [ValueError] (Some quiet)
      (def_function "fetch" (raise_then 2 boom bad)) in
  fst (run world0) = Raise bad
  /\ run_events run world0
     = retry_rounds 5 "fetch" 2 true (fun _ => boom) 2 0 1 ++ [EvCall]
  /\ call_count (run_events run world0) = 3%nat.
Proof.
  apply (retry_unlisted_fault_at_attempt Z 5 1 2 [ValueError] (Some quiet)
           (def_function "fetch" (raise_then 2 boom bad)) "fetch"
           (fun _ => boom) world0 3 bad).
  - lia.
  - lia.
  - reflexivity.
  - intros i Hi. destruct i as [|[|i]]; [reflexivity|reflexivity|lia].
  - intros i Hi. split; [|reflexivity].
    cbn [world0 calls Nat.add def_function __call__]. unfold raise_then.
    destruct (Nat.leb_spec i 2) as [_|Hgt]; [reflexivity|lia].
  - intros i Hi. reflexivity.
  - reflexivity.
  - reflexivity.
Defined.

(** A caught fault before the last attempt, the observer raising on it. *)
Lemma b64_retry_loop_observer_raises {A} times backoff exceptions
    (cb : Exn -> Z -> Res unit) (func : Callable A) attempt rest cur last
    w e e' name :
  __call__ func (S (calls w)) = Raise e ->
  isinstance e exceptions = true ->
  attempt <> times ->
  __name__ func = Ok name ->
  cb e attempt = Raise e' ->
  exists w',
    retry_loop times backoff exceptions (Some cb) func (attempt :: rest)
      cur last w
    = (Raise e', w')
    /\ trace w'
       = trace w ++ [EvCall; EvWarning attempt times name e cur;
                     EvOnRetry e attempt].
Proof.
  intros Hf He Ha Hn Hcb. apply Z.eqb_neq in Ha.
  cbn [retry_loop]. unfold try_except at 1, bind at 1, invoke.
  rewrite Hf, He, Ha.
  unfold logger_warning, call_on_retry, log, pure_call, bind.
  rewrite Hn. cbn [mono wall calls trace env called]. rewrite Hcb.
  eexists. split; [reflexivity|].
  cbn [trace]. rewrite <- !app_assoc. reflexivity.
Qed.

(** X4.  A fault raised by the observer ends the run at once, whatever its
    class.  For an operation that has a [__name__]: when attempts [1..k]
    raise caught faults, [k < times], the observer returns on the first
    [k-1] of them and raises [e'] on the [k]-th, the wrapper raises [e'].
    It has not slept after that attempt and does not invoke the operation
    again. *)
Theorem retry_observer_fault_aborts :
  forall (A : Type) (times : Z) (delay backoff : float)
         (exceptions : list ExcClass) (cb : Exn -> Z -> Res unit)
         (func : Callable A) (name : string) (faults : nat -> Exn)
         (w : World) (k : nat) (e' : Exn),
    (1 <= k)%nat -> Z.of_nat k < times ->
    __name__ func = Ok name ->
    (forall i, (i < k - 1)%nat -> sleeps_for w (grow backoff i delay)) ->
    (forall i, (0 < i <= k)%nat ->
       __call__ func (calls w + i)%nat = Raise (faults i)
       /\ isinstance (faults i) exceptions = true) ->
    observer_returns_on (Some cb) faults 0 (k - 1) ->
    cb (faults k) (Z.of_nat k) = Raise e' ->
    let run := retry times delay backoff exceptions (Some cb) func in
    fst (run w) = Raise e'
    /\ run_events run w
       = retry_rounds times name backoff true faults (k - 1) 0 delay
         ++ [EvCall;
             EvWarning (Z.of_nat k) times name (faults k)
               (grow backoff (k - 1) delay);
             EvOnRetry (faults k) (Z.of_nat k)]
    /\ call_count (run_events run w) = k
    /\ sleep_count (run_events run w) = (k - 1)%nat.
Proof.
  intros A times delay backoff exceptions cb func name faults w k e'
         Hk Hkn Hname Hsleep Hf Hcb Hraise run.
  destruct (b64_retry_loop_rounds times backoff exceptions (Some cb) func
              name faults (k - 1) 0 delay None w (calls w))
    as (last' & w' & Hrun & Hc & _ & Ht); try assumption; try lia.
  { intros i Hi. apply Hf. lia. }
  destruct (Hf k ltac:(lia)) as (Hcall & Hcatch).
  replace (calls w + k)%nat with (S (calls w')) in Hcall by lia.
  change (Z.of_nat 1) with 1 in Hrun.
  replace (Z.of_nat (S (0 + (k - 1)))) with (Z.of_nat k) in Hrun by lia.
  destruct (b64_retry_loop_observer_raises times backoff exceptions cb func
              (Z.of_nat k) (range (Z.of_nat k + 1) (times + 1))
              (grow backoff (k - 1) delay) last' w' (faults k) e' name
              Hcall Hcatch ltac:(lia) Hname Hraise)
    as (w2 & Hstep & Ht2).
  assert (Hres : run w = (Raise e', w2)).
  { unfold run, retry, wrapper, bind. rewrite Hrun.
    rewrite range_cons by lia. rewrite Hstep. reflexivity. }
  unfold run_events. rewrite Hres. cbn [fst snd].
  rewrite (b64_events_since_app w w2
             (retry_rounds times name backoff true faults (k - 1) 0 delay
              ++ [EvCall;
                  EvWarning (Z.of_nat k) times name (faults k)
                    (grow backoff (k - 1) delay);
                  EvOnRetry (faults k) (Z.of_nat k)]))
    by (rewrite Ht2, Ht; cbn [has_observer];
        rewrite <- !app_assoc; reflexivity).
  split; [reflexivity|]. split; [reflexivity|].
  rewrite b64_call_count_app, b64_sleep_count_app, b64_rounds_call_count.
  unfold sleep_count at 1. rewrite b64_rounds_sleeps, b64_geometric_length.
  cbn. split; lia.
Qed.

Lemma retry_observer_fault_aborts_witness :
  let run :=
    retry (A:=Z) 5 1 2 [Exception] (Some (raising_observer 2 bad))
      (def_function "fetch" (always_raise boom)) in
  fst (run world0) = Raise bad
  /\ run_events run world0
     = retry_rounds 5 "fetch" 2 true (fun _ => boom) 1 0 1
       ++ [EvCall; EvWarning 2 5 "fetch" boom (grow 2 1 1);
           EvOnRetry boom 2]
  /\ call_count (run_events run world0) = 2%nat
  /\ sleep_count (run_events run world0) = 1%nat.
Proof.
  apply (retry_observer_fault_aborts Z 5 1 2 [Exception]
           (raising_observer 2 bad) (def_function "fetch" (always_raise boom))
           "fetch" (fun _ => boom) world0 2 bad).
  - lia.
  - lia.
  - reflexivity.
  - intros i Hi. destruct i as [|i]; [reflexivity|lia].
  - intros i Hi. split; reflexivity.
  - intros i Hi. assert (i = 1%nat) by lia. subst i. reflexivity.
  - reflexivity.
Defined.

(** X5.  The order of a successful run.  For an operation that has a
    [__name__]: when attempts [1..k-1] raise the caught faults
    [faults 1 .. faults (k-1)] and attempt [k <= times] returns [v], the
    trace of the run is, for each failed attempt [i] in turn: the call,
    the warning, the observer invoked with [(faults i, i)], then the
    sleep of the delay as it has grown by then; and last the successful
    call.  So the observer is told of every failed attempt, in order,
    with the fault of that attempt and its number, each time before the
    sleep. *)
Theorem retry_trace_of_success :
  forall (A : Type) (times : Z) (delay backoff : float)
         (exceptions : list ExcClass)
         (on_retry : option (Exn -> Z -> Res unit)) (func : Callable A)
         (name : string) (faults : nat -> Exn) (w : World) (k : nat) (v : A),
    (1 <= k)%nat -> Z.of_nat k <= times ->
    __name__ func = Ok name ->
    (forall i, (i < k - 1)%nat -> sleeps_for w (grow backoff i delay)) ->
    (forall i, (0 < i <= k - 1)%nat ->
       __call__ func (calls w + i)%nat = Raise (faults i)
       /\ isinstance (faults i) exceptions = true) ->
    observer_returns_on on_retry faults 0 (k - 1) ->
    __call__ func (calls w + k)%nat = Ok v ->
    let run := retry times delay backoff exceptions on_retry func in
    fst (run w) = Ok v
    /\ run_events run w
       = retry_rounds times name backoff (has_observer on_retry) faults
           (k - 1) 0 delay ++ [EvCall]
    /\ on_retry_args (run_events run w)
       = (if has_observer on_retry
          then map (fun i => (faults i, Z.of_nat i)) (seq 1 (k - 1))
          else [])
    /\ sleeps (run_events run w) = geometric backoff (k - 1) delay.
Proof.
  intros A times delay backoff exceptions on_retry func name faults w k v
         Hk Hkn Hname Hsleep Hf Hcb Hok run.
  destruct (b64_retry_loop_rounds times backoff exceptions on_retry func name
              faults (k - 1) 0 delay None w (calls w))
    as (last' & w' & Hrun & Hc & _ & Ht); try assumption; try lia.
  assert (Hcall : __call__ func (S (calls w')) = Ok v).
  { rewrite Hc. replace (S (calls w + 0 + (k - 1))) with (calls w + k)%nat
      by lia. exact Hok. }
  assert (Hres : run w = (Ok v, called w')).
  { unfold run, retry, wrapper, bind.
    change (Z.of_nat 1) with 1 in Hrun.
    rewrite Hrun. rewrite range_cons by lia.
    rewrite (b64_retry_loop_success _ _ _ _ _ _ _ _ _ _ v Hcall).
    reflexivity. }
  unfold run_events. rewrite Hres. cbn [fst snd].
  rewrite (b64_events_since_app w (called w')
             (retry_rounds times name backoff (has_observer on_retry) faults
                (k - 1) 0 delay ++ [EvCall]))
    by (cbn [called trace]; rewrite Ht, app_assoc; reflexivity).
  split; [reflexivity|]. split; [reflexivity|].
  rewrite b64_on_retry_args_app, b64_rounds_on_retry_args, b64_sleeps_app,
    b64_rounds_sleeps.
  cbn [on_retry_args sleeps]. rewrite !app_nil_r. split; reflexivity.
Qed.

Lemma retry_trace_of_success_witness :
  let run :=
    retry 3 1 2 [Exception] (Some quiet)
      (def_function "fetch" (flaky 2 boom 7)) in
  fst (run world0) = Ok 7
  /\ run_events run world0
     = [EvCall; EvWarning 1 3 "fetch" boom 1; EvOnRetry boom 1; EvSleep 1;
        EvCall; EvWarning 2 3 "fetch" boom (1 * 2); EvOnRetry boom 2;
        EvSleep (1 * 2);
        EvCall]
  /\ on_retry_args (run_events run world0) = [(boom, 1); (boom, 2)]
  /\ sleeps (run_events run world0) = [1; (1 * 2)]%float.
Proof.
  apply (retry_trace_of_success Z 3 1 2 [Exception] (Some quiet)
           (def_function "fetch" (flaky 2 boom 7)) "fetch" (fun _ => boom)
           world0 3 7).
  - lia.
  - lia.
  - reflexivity.
  - intros i Hi. destruct i as [|[|i]]; [reflexivity|reflexivity|lia].
  - intros i Hi. split; [|reflexivity].
    cbn [world0 calls Nat.add def_function __call__]. unfold flaky.
    destruct (Nat.leb_spec i 2) as [_|Hgt]; [reflexivity|lia].
  - intros i Hi. reflexivity.
  - reflexivity.
Defined.

(** X6.  A delay that [time.sleep] refuses turns the first retry into
    that refusal.  For an operation that has a [__name__], with
    [times > 1]: when the first attempt raises a caught fault (and the
    observer, if any, returns) and [time.sleep] refuses the delay with
    the fault [refusal], the wrapper raises [refusal] instead of
    retrying.  The operation was invoked once and the clock did not
    move.  CPython refuses a negative delay with the [ValueError]
    [sleep length must be non-negative]. *)
Theorem retry_refused_delay_aborts :
  forall (A : Type) (times : Z) (delay backoff : float)
         (exceptions : list ExcClass)
         (on_retry : option (Exn -> Z -> Res unit)) (func : Callable A)
         (name : string) (w : World) (e refusal : Exn),
    1 < times ->
    __name__ func = Ok name ->
    sleep_refusal (env w) delay = Some refusal ->
    __call__ func (S (calls w)) = Raise e ->
    isinstance e exceptions = true ->
    match on_retry with
    | Some cb => cb e 1 = Ok tt
    | None => True
    end ->
    let run := retry times delay backoff exceptions on_retry func in
    fst (run w) = Raise refusal
    /\ run_events run w
       = [EvCall; EvWarning 1 times name e delay]
         ++ (if has_observer on_retry then [EvOnRetry e 1] else [])
    /\ mono (snd (run w)) = mono w
    /\ calls (snd (run w)) = S (calls w).
Proof.
  intros A times delay backoff exceptions on_retry func name w e refusal
         Ht Hname Hd Hf He Hcb run.
  assert (Hne : (1 =? times) = false) by (apply Z.eqb_neq; lia).
  assert (Hres : exists w',
             run w = (Raise refusal, w')
             /\ trace w'
                = trace w
                  ++ [EvCall; EvWarning 1 times name e delay]
                  ++ (if has_observer on_retry then [EvOnRetry e 1] else [])
             /\ mono w' = mono w
             /\ calls w' = S (calls w)).
  { unfold run, retry, wrapper, bind.
    rewrite (range_cons 1) by lia.
    cbn [retry_loop]. unfold try_except at 1, bind at 1, invoke.
    rewrite Hf, He, Hne.
    unfold logger_warning, call_on_retry, sleep, log, pure_call, bind.
    rewrite Hname. cbn [mono wall calls trace env called].
    destruct on_retry as [cb|].
    - rewrite Hcb. cbn [mono wall calls trace env]. rewrite Hd.
      eexists. split; [reflexivity|]. cbn [trace mono calls has_observer].
      rewrite <- !app_assoc. repeat split.
    - cbn [ret mono wall calls trace env]. rewrite Hd.
      eexists. split; [reflexivity|]. cbn [trace mono calls has_observer].
      rewrite <- !app_assoc. repeat split. }
  destruct Hres as (w' & Hres & Ht' & Hm & Hc).
  unfold run_events. rewrite Hres. cbn [fst snd].
  split; [reflexivity|]. split; [|split; [exact Hm|exact Hc]].
  now apply b64_events_since_app.
Qed.

Lemma retry_refused_delay_aborts_witness :
  let run :=
    retry 3 (-1) 2 [Exception] (Some quiet)
      (def_function "fetch" (flaky 1 boom 7)) in
  fst (run world0)
  = Raise (mkExn ValueError "sleep length must be non-negative")
  /\ run_events run world0
     = [EvCall; EvWarning 1 3 "fetch" boom (-1)] ++ [EvOnRetry boom 1]
  /\ mono (snd (run world0)) = mono world0
  /\ calls (snd (run world0)) = S (calls world0).
Proof.
  apply (retry_refused_delay_aborts Z 3 (-1) 2 [Exception] (Some quiet)
           (def_function "fetch" (flaky 1 boom 7)) "fetch" world0 boom
           (mkExn ValueError "sleep length must be non-negative")).
  - lia.
  - reflexivity.
  - reflexivity.
  - reflexivity.
  - reflexivity.
  - reflexivity.
Defined.

(** ** The polling loops as one loop *)

Lemma b64_poll_until_loop_as_polling {T} fuel (fn : nat -> Res T) condition
    interval deadline :
  forall last w,
    poll_until_loop fuel fn condition interval deadline last w
    = polling_loop fuel fn condition (sleep interval) deadline last w.
Proof.
  induction fuel as [|fuel IH]; intros last w; [reflexivity|].
  cbn [poll_until_loop polling_loop].
  unfold bind, monotonic, invoke, pure_call, sleep, ret.
  cbn [fst snd mono wall calls trace env].
  destruct (mono w <? deadline)%float; [|reflexivity].
  destruct (fn (S (calls w))) as [v| |]; try reflexivity.
  destruct (condition v) as [[|]| |]; try reflexivity.
  destruct (sleep_refusal (env (called w)) interval); [reflexivity|].
  apply IH.
Qed.

Lemma b64_wait_until_loop_as_polling fuel condition interval deadline :
  forall (last : option bool) w,
    wait_until_loop fuel condition interval deadline w
    = forget (polling_loop fuel condition (fun b => Ok b) (sleep interval)
                deadline last w).
Proof.
  induction fuel as [|fuel IH]; intros last w; [reflexivity|].
  cbn [wait_until_loop polling_loop].
  unfold forget, bind, monotonic, invoke, pure_call, sleep, ret.
  cbn [fst snd mono wall calls trace env].
  destruct (mono w <? deadline)%float; [|reflexivity].
  destruct (condition (S (calls w))) as [[|]| |]; try reflexivity.
  destruct (sleep_refusal (env (called w)) interval); [reflexivity|].
  apply IH.
Qed.

Lemma b64_async_poll_until_loop_as_polling {T} fuel
    (fn : nat -> Res (Awaitable T)) condition interval deadline :
  forall last w,
    async_poll_until_loop fuel fn condition interval deadline last w
    = polling_loop fuel (fun m => settle (fn m)) condition
        (async_sleep interval) deadline last w.
Proof.
  induction fuel as [|fuel IH]; intros last w; [reflexivity|].
  cbn [async_poll_until_loop polling_loop].
  unfold bind, loop_time, monotonic, invoke, await_if_coroutine, pure_call,
    ret, settle.
  cbn [fst snd mono wall calls trace env].
  destruct (mono w <? deadline)%float; [|reflexivity].
  destruct (fn (S (calls w))) as [[v|[v|e|]]| |]; try reflexivity;
    (destruct (condition v) as [[|]| |]; try reflexivity);
    (destruct (async_sleep interval (called w)) as [[[]|e|] w1];
     try reflexivity; apply IH).
Qed.

Lemma b64_async_wait_until_loop_as_polling fuel
    (condition : nat -> Res (Awaitable bool)) interval deadline :
  forall (last : option bool) w,
    async_wait_until_loop fuel condition interval deadline w
    = forget (polling_loop fuel (fun m => settle (condition m))
                (fun b => Ok b) (async_sleep interval) deadline last w).
Proof.
  induction fuel as [|fuel IH]; intros last w; [reflexivity|].
  cbn [async_wait_until_loop polling_loop].
  unfold forget, bind, loop_time, monotonic, invoke, await_if_coroutine,
    pure_call, ret, settle.
  cbn [fst snd mono wall calls trace env].
  destruct (mono w <? deadline)%float; [|reflexivity].
  destruct (condition (S (calls w))) as [[b|[b|e|]]| |]; try reflexivity;
    (destruct b; try reflexivity);
    (destruct (async_sleep interval (called w)) as [[[]|e|] w1];
     try reflexivity; apply IH).
Qed.

Lemma b64_sleep_pauses interval w :
  sleeps_for w interval -> pauses_for (sleep interval) interval w.
Proof.
  intros H w' He. unfold sleep. rewrite He. unfold sleeps_for in H.
  rewrite H. reflexivity.
Qed.

Lemma b64_async_sleep_pauses interval w :
  timer_fires w interval -> pauses_for (async_sleep interval) interval w.
Proof.
  intros [Hpos Hfire] w' He. unfold async_sleep. rewrite Hpos, He, Hfire.
  reflexivity.
Qed.

(** ** The polling loop, one probe at a time *)

Section PollingSteps.
Context {T : Type}.
Variable probe : nat -> Res T.
Variable condition : T -> Res bool.
Variable pause : M unit.
Variables interval deadline : float.

Local Abbreviation loop := (polling_loop (T:=T)).

Lemma b64_polling_expired fuel last w :
  (mono w <? deadline)%float = false ->
  loop (S fuel) probe condition pause deadline last w
  = (Ok (FellThrough last), w).
Proof.
  intros H. cbn [polling_loop]. unfold bind, monotonic. rewrite H.
  reflexivity.
Qed.

Lemma b64_polling_return fuel last w v :
  (mono w <? deadline)%float = true ->
  probe (S (calls w)) = Ok v -> condition v = Ok true ->
  loop (S fuel) probe condition pause deadline last w
  = (Ok (Returned v), called w).
Proof.
  intros H Hf Hc.
  cbn [polling_loop]. unfold bind, monotonic, invoke, pure_call.
  rewrite H, Hf, Hc. reflexivity.
Qed.

Lemma b64_polling_raise fuel last w e :
  (mono w <? deadline)%float = true ->
  check condition (probe (S (calls w))) = Raise e ->
  loop (S fuel) probe condition pause deadline last w = (Raise e, called w).
Proof.
  intros H Hc.
  cbn [polling_loop]. unfold bind, monotonic, invoke, pure_call.
  rewrite H. unfold check in Hc.
  destruct (probe (S (calls w))) as [v|e'|]; try discriminate Hc.
  - rewrite Hc. reflexivity.
  - injection Hc as ->. reflexivity.
Qed.

Lemma b64_polling_step fuel last w u :
  (mono w <? deadline)%float = true ->
  probe (S (calls w)) = Ok u -> condition u = Ok false ->
  pauses_for pause interval w ->
  loop (S fuel) probe condition pause deadline last w
  = loop fuel probe condition pause deadline (Some u)
      (slept interval (called w)).
Proof.
  intros H Hf Hc Hp.
  cbn [polling_loop]. unfold bind at 1, monotonic. rewrite H.
  unfold bind at 1, invoke. rewrite Hf.
  unfold bind at 1, pure_call. rewrite Hc.
  unfold bind at 1. rewrite (Hp (called w) eq_refl). reflexivity.
Qed.

(** [j] probes that neither succeed nor fail, each begun before the
    deadline. *)
Lemma b64_polling_pending j : forall fuel last w,
  (forall m, (1 <= m <= j)%nat ->
     check condition (probe (calls w + m)%nat) = Ok false) ->
  pauses_for pause interval w ->
  (forall m, (m < j)%nat -> in_time interval deadline (mono w) m = true) ->
  exists last' w' evs,
    loop (j + fuel) probe condition pause deadline last w
    = loop fuel probe condition pause deadline last' w'
    /\ calls w' = (calls w + j)%nat
    /\ mono w' = clock_after interval j (mono w)
    /\ env w' = env w
    /\ trace w' = trace w ++ evs
    /\ call_count evs = j
    /\ sleeps evs = repeat interval j
    /\ (j = 0%nat -> last' = last)
    /\ ((1 <= j)%nat ->
        exists u, probe (calls w + j)%nat = Ok u /\ last' = Some u).
Proof.
  induction j as [|j IH]; intros fuel last w Hpend Hp Htime.
  - exists last, w, []. rewrite Nat.add_0_r, app_nil_r.
    repeat split. lia.
  - pose proof (Htime 0%nat ltac:(lia)) as Hnow.
    unfold in_time in Hnow. cbn [clock_after] in Hnow.
    specialize (Hpend 1%nat ltac:(lia)) as H1.
    rewrite Nat.add_1_r in H1. unfold check in H1.
    destruct (probe (S (calls w))) as [u| |] eqn:Hf; try discriminate H1.
    cbn [Nat.add].
    rewrite (b64_polling_step (j + fuel) last w u Hnow Hf H1 Hp).
    destruct (IH fuel (Some u) (slept interval (called w)))
      as (last' & w' & evs & Hrun & Hc & Hm & He & Ht & Hcc & Hs & Hl0
          & Hlast).
    + intros m Hm. cbn [slept called calls].
      replace (S (calls w) + m)%nat with (calls w + S m)%nat by lia.
      apply Hpend. lia.
    + intros w2 He2. apply Hp. rewrite He2. reflexivity.
    + intros m Hm. cbn [slept called mono].
      apply (Htime (S m)). lia.
    + cbn [slept called calls mono trace env] in Hc, Hm, He, Ht, Hlast.
      exists last', w', ([EvCall; EvSleep interval] ++ evs).
      split; [exact Hrun|].
      split; [lia|].
      split; [exact Hm|].
      split; [exact He|].
      split; [rewrite Ht, <- !app_assoc; reflexivity|].
      split; [rewrite b64_call_count_app, Hcc; reflexivity|].
      split; [rewrite b64_sleeps_app, Hs; reflexivity|].
      split; [lia|].
      intros _. destruct j as [|j'].
      * exists u. rewrite Nat.add_1_r. split; [exact Hf|]. now apply Hl0.
      * destruct (Hlast ltac:(lia)) as (u' & Hu' & Hl').
        exists u'. split; [|exact Hl'].
        replace (calls w + S (S j'))%nat with (S (calls w) + S j')%nat by lia.
        exact Hu'.
Qed.

(** No probe succeeds or fails, and the clock reaches the deadline after
    [N] sleeps. *)
Lemma b64_polling_timeout fuel w N last :
  (forall m, (1 <= m <= N)%nat ->
     check condition (probe (calls w + m)%nat) = Ok false) ->
  pauses_for pause interval w ->
  (forall m, (m < N)%nat -> in_time interval deadline (mono w) m = true) ->
  in_time interval deadline (mono w) N = false ->
  (N < fuel)%nat ->
  exists last' w' evs,
    loop fuel probe condition pause deadline last w
    = (Ok (FellThrough last'), w')
    /\ calls w' = (calls w + N)%nat
    /\ mono w' = clock_after interval N (mono w)
    /\ trace w' = trace w ++ evs
    /\ call_count evs = N
    /\ sleeps evs = repeat interval N
    /\ (N = 0%nat -> last' = last)
    /\ ((1 <= N)%nat ->
        exists u, probe (calls w + N)%nat = Ok u /\ last' = Some u).
Proof.
  intros Hnever Hp Hlt Hge Hfuel.
  replace fuel with (N + S (fuel - N - 1))%nat by lia.
  destruct (b64_polling_pending N (S (fuel - N - 1)) last w Hnever Hp Hlt)
    as (last' & w' & evs & Hrun & Hc & Hm & _ & Ht & Hcc & Hs & Hl0 & Hlast).
  exists last', w', evs. rewrite Hrun.
  rewrite b64_polling_expired
    by (rewrite Hm; exact Hge).
  repeat split; assumption.
Qed.

(** The first [k-1] probes pending, the [k]-th begun before the
    deadline. *)
Lemma b64_polling_reaches fuel w k last :
  (1 <= k)%nat ->
  pauses_for pause interval w ->
  (forall m, (m < k)%nat -> in_time interval deadline (mono w) m = true) ->
  (forall m, (1 <= m < k)%nat ->
     check condition (probe (calls w + m)%nat) = Ok false) ->
  exists last' w' evs,
    loop (k - 1 + S fuel) probe condition pause deadline last w
    = loop (S fuel) probe condition pause deadline last' w'
    /\ (mono w' <? deadline)%float = true
    /\ S (calls w') = (calls w + k)%nat
    /\ trace w' = trace w ++ evs
    /\ call_count evs = (k - 1)%nat
    /\ sleeps evs = repeat interval (k - 1).
Proof.
  intros Hk Hp Htime Hpend.
  destruct (b64_polling_pending (k - 1) (S fuel) last w)
    as (last' & w' & evs & Hrun & Hc & Hm & _ & Ht & Hcc & Hs & _).
  - intros m Hm. apply Hpend. lia.
  - exact Hp.
  - intros m Hm. apply Htime. lia.
  - exists last', w', evs. split; [exact Hrun|].
    split; [rewrite Hm; apply (Htime (k - 1)%nat); lia|].
    split; [lia|]. repeat split; assumption.
Qed.

(** The [k]-th probe raises: the loop is left at once by that fault. *)
Lemma b64_polling_fault_at fuel w k last e :
  (1 <= k <= fuel)%nat ->
  pauses_for pause interval w ->
  (forall m, (m < k)%nat -> in_time interval deadline (mono w) m = true) ->
  (forall m, (1 <= m < k)%nat ->
     check condition (probe (calls w + m)%nat) = Ok false) ->
  check condition (probe (calls w + k)%nat) = Raise e ->
  exists w' evs,
    loop fuel probe condition pause deadline last w = (Raise e, w')
    /\ trace w' = trace w ++ evs ++ [EvCall]
    /\ call_count evs = (k - 1)%nat
    /\ sleeps evs = repeat interval (k - 1).
Proof.
  intros Hk Hp Htime Hpend Hraise.
  destruct (b64_polling_reaches (fuel - k) w k last ltac:(lia) Hp Htime Hpend)
    as (last' & w' & evs & Hrun & Hnow & Hc & Ht & Hcc & Hs).
  replace (k - 1 + S (fuel - k))%nat with fuel in Hrun by lia.
  rewrite <- Hc in Hraise.
  exists (called w'), evs. rewrite Hrun.
  rewrite (b64_polling_raise _ _ _ e Hnow Hraise).
  cbn [called trace]. rewrite Ht, app_assoc. repeat split; assumption.
Qed.

(** The [k]-th probe is the first to succeed: the loop returns its
    value. *)
Lemma b64_polling_match_at fuel w k last v :
  (1 <= k <= fuel)%nat ->
  pauses_for pause interval w ->
  (forall m, (m < k)%nat -> in_time interval deadline (mono w) m = true) ->
  (forall m, (1 <= m < k)%nat ->
     check condition (probe (calls w + m)%nat) = Ok false) ->
  probe (calls w + k)%nat = Ok v -> condition v = Ok true ->
  exists w' evs,
    loop fuel probe condition pause deadline last w = (Ok (Returned v), w')
    /\ calls w' = (calls w + k)%nat
    /\ trace w' = trace w ++ evs ++ [EvCall]
    /\ call_count evs = (k - 1)%nat
    /\ sleeps evs = repeat interval (k - 1).
Proof.
  intros Hk Hp Htime Hpend Hv Hc.
  destruct (b64_polling_reaches (fuel - k) w k last ltac:(lia) Hp Htime Hpend)
    as (last' & w' & evs & Hrun & Hnow & Hcalls & Ht & Hcc & Hs).
  replace (k - 1 + S (fuel - k))%nat with fuel in Hrun by lia.
  rewrite <- Hcalls in Hv.
  exists (called w'), evs. rewrite Hrun.
  rewrite (b64_polling_return _ _ _ v Hnow Hv Hc).
  cbn [called trace calls]. rewrite Ht, app_assoc. repeat split; assumption.
Qed.

(** The loop only appends to the trace when its pause does, and a loop
    entered before the deadline begins with a probe. *)
Lemma b64_polling_trace fuel :
  (forall w, exists evs, trace (snd (pause w)) = trace w ++ evs) ->
  forall last w,
  exists evs,
    trace (snd (loop fuel probe condition pause deadline last w))
    = trace w ++ evs.
Proof.
  intros Hext.
  induction fuel as [|fuel IH]; intros last w.
  - exists []. cbn. now rewrite app_nil_r.
  - cbn [polling_loop].
    unfold bind, monotonic, invoke, pure_call, ret.
    cbn [fst snd].
    destruct (mono w <? deadline)%float;
      [|exists []; cbn; now rewrite app_nil_r].
    destruct (probe (S (calls w))) as [v| |]; try (exists [EvCall]; reflexivity).
    destruct (condition v) as [[|]| |]; try (exists [EvCall]; reflexivity).
    destruct (Hext (called w)) as (evs1 & Hevs1).
    destruct (pause (called w)) as [[[]|e|] w1]; cbn [snd] in Hevs1 |- *;
      try (exists (EvCall :: evs1); rewrite Hevs1; cbn [called trace];
           rewrite <- app_assoc; reflexivity).
    destruct (IH (Some v) w1) as (evs & Hevs).
    exists (EvCall :: evs1 ++ evs).
    rewrite Hevs, Hevs1. cbn [called trace]. rewrite <- !app_assoc.
    reflexivity.
Qed.

Lemma b64_polling_first_probe fuel last w :
  (forall w, exists evs, trace (snd (pause w)) = trace w ++ evs) ->
  (mono w <? deadline)%float = true ->
  exists evs,
    trace (snd (loop (S fuel) probe condition pause deadline last w))
    = trace w ++ EvCall :: evs.
Proof.
  intros Hext Hnow.
  cbn [polling_loop].
  unfold bind, monotonic, invoke, pure_call, ret.
  cbn [fst snd]. rewrite Hnow.
  destruct (probe (S (calls w))) as [v| |]; try (exists []; reflexivity).
  destruct (condition v) as [[|]| |]; try (exists []; reflexivity).
  destruct (Hext (called w)) as (evs1 & Hevs1).
  destruct (pause (called w)) as [[[]|e|] w1] eqn:Hp; cbn [snd] in Hevs1 |- *;
    try (exists evs1; rewrite Hevs1; cbn [called trace];
         rewrite <- app_assoc; reflexivity).
  destruct (b64_polling_trace fuel Hext (Some v) w1) as (evs & Hevs).
  exists (evs1 ++ evs).
  rewrite Hevs, Hevs1. cbn [called trace]. rewrite <- !app_assoc.
  reflexivity.
Qed.

End PollingSteps.

Lemma b64_sleep_appends interval :
  forall w, exists evs, trace (snd (sleep interval w)) = trace w ++ evs.
Proof.
  intros w. unfold sleep.
  destruct (sleep_refusal (env w) interval).
  - exists []. cbn. now rewrite app_nil_r.
  - exists [EvSleep interval]. reflexivity.
Qed.

(** ** The polling helpers in terms of the loop *)

Lemma b64_check_id (r : Res bool) : check (fun b => Ok b) r = r.
Proof. destruct r; reflexivity. Qed.

Lemma b64_wait_until_world str_float fuel condition timeout interval message
    w :
  snd (wait_until str_float fuel condition timeout interval message w)
  = snd (polling_loop fuel condition (fun b => Ok b) (sleep interval)
           (mono w + timeout)%float None w).
Proof.
  unfold wait_until, bind, monotonic.
  rewrite (b64_wait_until_loop_as_polling _ _ _ _ None). unfold forget.
  destruct (polling_loop fuel condition (fun b => Ok b) (sleep interval)
              (mono w + timeout)%float None w) as [[[v|l]|e|] w'];
    reflexivity.
Qed.

Lemma b64_poll_until_world {T} str_float (str_value : T -> string) fuel fn
    condition timeout interval message w :
  snd (poll_until str_float str_value fuel fn condition timeout interval
         message w)
  = snd (polling_loop fuel fn condition (sleep interval)
           (mono w + timeout)%float None w).
Proof.
  unfold poll_until, bind, monotonic.
  rewrite b64_poll_until_loop_as_polling.
  destruct (polling_loop fuel fn condition (sleep interval)
              (mono w + timeout)%float None w) as [[[v|l]|e|] w'];
    reflexivity.
Qed.

Lemma b64_wait_until_timeout_run str_float fuel condition timeout interval
    message w N :
  sleeps_for w interval ->
  (forall m, (m < N)%nat ->
     in_time interval (mono w + timeout)%float (mono w) m = true) ->
  in_time interval (mono w + timeout)%float (mono w) N = false ->
  (forall m, (1 <= m <= N)%nat -> condition (calls w + m)%nat = Ok false) ->
  (N < fuel)%nat ->
  exists w' evs,
    wait_until str_float fuel condition timeout interval message w
    = (Raise (mkExn TimeoutError
                (message ++ " after " ++ str_float timeout ++ "s")), w')
    /\ calls w' = (calls w + N)%nat
    /\ mono w' = clock_after interval N (mono w)
    /\ trace w' = trace w ++ evs
    /\ call_count evs = N
    /\ sleeps evs = repeat interval N.
Proof.
  intros Hs Hlt Hge Hnever Hfuel.
  destruct (b64_polling_timeout condition (fun b => Ok b) (sleep interval)
              interval (mono w + timeout)%float fuel w N None)
    as (last' & w' & evs & Hrun & Hc & Hm & Ht & Hcc & Hsl & _);
    [intros m Hm; rewrite b64_check_id; now apply Hnever
    | now apply b64_sleep_pauses | exact Hlt | exact Hge | exact Hfuel |].
  exists w', evs.
  unfold wait_until, bind, monotonic.
  rewrite (b64_wait_until_loop_as_polling _ _ _ _ None), Hrun.
  repeat split; assumption.
Qed.

Lemma b64_sleep_eq seconds w :
  sleep seconds w
  = match sleep_refusal (env w) seconds with
    | Some e => (Raise e, w)
    | None => (Ok tt, slept seconds w)
    end.
Proof. reflexivity. Qed.

(** A run does not read the wall clock: from two worlds that differ in
    the wall clock only, the loop does the same. *)
Lemma b64_polling_wall {T} (probe : nat -> Res T) condition interval deadline
    fuel :
  forall last w1 w2,
    same_but_wall w1 w2 ->
    fst (polling_loop fuel probe condition (sleep interval) deadline last w1)
    = fst (polling_loop fuel probe condition (sleep interval) deadline last
             w2)
    /\ same_but_wall
         (snd (polling_loop fuel probe condition (sleep interval) deadline
                 last w1))
         (snd (polling_loop fuel probe condition (sleep interval) deadline
                 last w2)).
Proof.
  induction fuel as [|fuel IH]; intros last w1 w2 Hsame.
  - split; [reflexivity|exact Hsame].
  - destruct Hsame as (Hm & Hc & Ht & Hr & Hti).
    assert (Hcalled : same_but_wall (called w1) (called w2))
      by (unfold same_but_wall; cbn [called mono calls trace env];
          rewrite Ht, Hc; repeat split; assumption).
    cbn [polling_loop].
    unfold bind, monotonic, invoke, pure_call, ret.
    cbn [fst snd]. rewrite <- Hm.
    destruct (mono w1 <? deadline)%float;
      [|split; [reflexivity|repeat split; assumption]].
    cbv beta. rewrite <- Hc.
    destruct (probe (S (calls w1))) as [v| |];
      try (split; [reflexivity|exact Hcalled]).
    destruct (condition v) as [[|]| |];
      try (split; [reflexivity|exact Hcalled]).
    rewrite !b64_sleep_eq. cbn [called env]. rewrite <- Hr.
    destruct (sleep_refusal (env w1) interval);
      [split; [reflexivity|exact Hcalled]|].
    apply IH.
    destruct Hcalled as (Hm' & Hc' & Ht' & Hr' & Hti').
    unfold same_but_wall. cbn [slept mono calls trace env].
    rewrite Ht', Hc', Hm'. repeat split; assumption.
Qed.

Lemma b64_wait_until_wall str_float fuel condition timeout interval message
    w1 w2 :
  same_but_wall w1 w2 ->
  fst (wait_until str_float fuel condition timeout interval message w1)
  = fst (wait_until str_float fuel condition timeout interval message w2)
  /\ same_but_wall
       (snd (wait_until str_float fuel condition timeout interval message w1))
       (snd (wait_until str_float fuel condition timeout interval message
               w2)).
Proof.
  intros Hsame.
  destruct (b64_polling_wall condition (fun b => Ok b) interval
              (mono w1 + timeout)%float fuel None w1 w2 Hsame)
    as (Hfst & Hsnd).
  rewrite !b64_wait_until_world.
  destruct Hsame as (Hm & _). rewrite <- Hm. split; [|exact Hsnd].
  unfold wait_until, bind, monotonic. rewrite <- Hm.
  rewrite !(b64_wait_until_loop_as_polling _ _ _ _ None). unfold forget.
  cbn [fst snd]. rewrite <- Hfst.
  destruct (fst (polling_loop fuel condition (fun b => Ok b) (sleep interval)
                   (mono w1 + timeout)%float None w1)) as [[v|l]|e|];
    reflexivity.
Qed.

(** ** wait_until and poll_until: the specification's properties *)

(** C5, as the code has it, on the simulated clock with its float
    arithmetic.  [wait_until] evaluates the predicate at least once,
    whatever the predicate does, when the deadline [t0 + timeout] it
    computes is above the reading [t0] it starts from.  When the
    predicate is false at every evaluation, it is evaluated once for each
    reading of the clock below the deadline: exactly [N] times, where [N]
    is the number of sleeps of [interval] after which the clock
    [((t0 + interval) + interval) ...], each sum rounded, is for the
    first time not below the deadline; then the call fails with a
    [TimeoutError], the clock at that reading.  The interval is a length
    [time.sleep] takes. *)
Theorem wait_until_never_true_probes :
  forall (str_float : float -> string) (timeout interval : float)
         (message : string) (w : World),
    (forall condition fuel, (1 <= fuel)%nat ->
       (mono w <? mono w + timeout)%float = true ->
       (1 <= call_count
               (run_events (wait_until str_float fuel condition timeout
                              interval message) w))%nat)
    /\ (forall condition fuel N,
          sleeps_for w interval ->
          (forall m, (m < N)%nat ->
             in_time interval (mono w + timeout)%float (mono w) m = true) ->
          in_time interval (mono w + timeout)%float (mono w) N = false ->
          (forall m, (1 <= m <= N)%nat ->
             condition (calls w + m)%nat = Ok false) ->
          (N < fuel)%nat ->
          let run :=
            wait_until str_float fuel condition timeout interval message in
          (exists e, fst (run w) = Raise e /\ exc_class e = TimeoutError)
          /\ call_count (run_events run w) = N
          /\ mono (snd (run w)) = clock_after interval N (mono w)
          /\ (mono (snd (run w)) <? mono w + timeout)%float = false).
Proof.
  intros str_float timeout interval message w. split.
  - intros condition fuel Hfuel Hnow. unfold run_events.
    rewrite b64_wait_until_world.
    destruct fuel as [|fuel]; [lia|].
    destruct (b64_polling_first_probe condition (fun b => Ok b)
                (sleep interval) (mono w + timeout)%float fuel None w
                (b64_sleep_appends interval) Hnow) as (evs & Hevs).
    rewrite (b64_events_since_app _ _ (EvCall :: evs) Hevs).
    unfold call_count. cbn. lia.
  - intros condition fuel N Hs Hlt Hge Hnever Hfuel run.
    destruct (b64_wait_until_timeout_run str_float fuel condition timeout
                interval message w N Hs Hlt Hge Hnever Hfuel)
      as (w' & evs & Hrun & Hc & Hm & Ht & Hcc & Hsl).
    unfold run_events, run. rewrite Hrun. cbn [fst snd].
    split; [eexists; split; reflexivity|].
    split; [rewrite (b64_events_since_app _ _ _ Ht); exact Hcc|].
    split; [exact Hm|]. rewrite Hm. exact Hge.
Qed.

Lemma wait_until_never_true_probes_witness :
  let run := wait_until float_str 8 never 2.5 1 "Condition not met" in
  (1 <= call_count (run_events run world0))%nat
  /\ (exists e, fst (run world0) = Raise e /\ exc_class e = TimeoutError)
  /\ call_count (run_events run world0) = 3%nat
  /\ mono (snd (run world0)) = clock_after 1 3 (mono world0)
  /\ (mono (snd (run world0)) <? mono world0 + 2.5)%float = false.
Proof.
  destruct (wait_until_never_true_probes float_str 2.5 1 "Condition not met"
              world0) as (Honce & Hrun).
  split; [apply (Honce never 8%nat); [lia|reflexivity]|].
  apply (Hrun never 8%nat 3%nat).
  - reflexivity.
  - intros m Hm. destruct m as [|[|[|m]]]; [reflexivity..|lia].
  - reflexivity.
  - intros m Hm. reflexivity.
  - lia.
Defined.

(** C5 as the specification words it fails twice.  The count: with
    [timeout = 1] and [interval = 1] the predicate is evaluated once, not
    [floor(1/1) + 1 = 2] times, because the loop test is strict.  The
    least number of evaluations: from the clock reading 1000000.0 a
    timeout of 2^-37 seconds is above zero and yet leaves the deadline
    at 1000000.0, so that a predicate that is true is never evaluated. *)
Lemma wait_until_probe_count_counterexample :
  (let run := wait_until float_str 8 never 1 1 "Condition not met" in
   (exists e, fst (run world0) = Raise e /\ exc_class e = TimeoutError)
   /\ call_count (run_events run world0) = 1%nat
   /\ Z.to_nat (Qfloor (float_to_Q 1 / float_to_Q 1) + 1) = 2%nat
   /\ call_count (run_events run world0)
      <> Z.to_nat (Qfloor (float_to_Q 1 / float_to_Q 1) + 1))
  /\ (let late := mkWorld 1000000 1000000 0 [] cpython in
      let run :=
        wait_until float_str 8 (fun _ => Ok true) 0x1p-37 1
          "Condition not met" in
      (0 <? 0x1p-37)%float = true
      /\ (exists e, fst (run late) = Raise e /\ exc_class e = TimeoutError)
      /\ call_count (run_events run late) = 0%nat).
Proof.
  cbv zeta. split.
  - split; [eexists; split; reflexivity|].
    split; [reflexivity|]. split; [reflexivity|].
    vm_compute. discriminate.
  - split; [reflexivity|]. split; [eexists; split; reflexivity|reflexivity].
Qed.

(** The count follows the rounded clock: with [timeout = 1.0] and
    [interval = 0.1] the clock after ten sleeps stands just below 1.0, and
    the predicate is evaluated an eleventh time. *)
Example wait_until_rounded_clock :
  let run := wait_until float_str 20 never 1 tenth "Condition not met" in
  (clock_after tenth 10 0 <? 1)%float = true
  /\ call_count (run_events run world0) = 11%nat
  /\ mono (snd (run world0)) = clock_after tenth 11 0.
Proof. cbv zeta. repeat split. Qed.

(** C6, as the code has it.  When the predicate of [wait_until] is false
    at every evaluation before the deadline, the [TimeoutError] carries
    the caller's message followed by the configured [timeout], not the
    time that went by.  The deadline is tracked with the monotonic clock
    only: wherever the wall clock stands, and however it is set from
    outside while the call runs, the outcome, the clock, the calls and the
    trace are the same. *)
Theorem wait_until_timeout_fault :
  forall (str_float : float -> string) (condition : nat -> Res bool)
         (timeout interval : float) (message : string) (w : World)
         (fuel N : nat),
    sleeps_for w interval ->
    (forall m, (m < N)%nat ->
       in_time interval (mono w + timeout)%float (mono w) m = true) ->
    in_time interval (mono w + timeout)%float (mono w) N = false ->
    (forall m, (1 <= m <= N)%nat -> condition (calls w + m)%nat = Ok false) ->
    (N < fuel)%nat ->
    let run := wait_until str_float fuel condition timeout interval message in
    fst (run w)
    = Raise (mkExn TimeoutError
               (message ++ " after " ++ str_float timeout ++ "s"))
    /\ (forall w2, same_but_wall w w2 ->
          fst (run w2) = fst (run w)
          /\ same_but_wall (snd (run w)) (snd (run w2))).
Proof.
  intros str_float condition timeout interval message w fuel N
         Hs Hlt Hge Hnever Hfuel run.
  destruct (b64_wait_until_timeout_run str_float fuel condition timeout
              interval message w N Hs Hlt Hge Hnever Hfuel)
    as (w' & evs & Hrun & _).
  split; [unfold run; rewrite Hrun; reflexivity|].
  intros w2 Hsame.
  destruct (b64_wait_until_wall str_float fuel condition timeout interval
              message w w2 Hsame) as (Hfst & Hsnd).
  split; [symmetry; exact Hfst|exact Hsnd].
Qed.

(** The same call in a world whose wall clock starts elsewhere and is
    set back to zero during every evaluation of the predicate. *)
Lemma wait_until_timeout_fault_witness :
  let run := wait_until float_str 8 never 1 0.75 "Condition not met" in
  let adjusted :=
    mkWorld 0 1700000000 0 []
      (mkEnv cpython_sleep_refusal cpython_timer (fun _ => Some 0%float)) in
  fst (run world0)
  = Raise (mkExn TimeoutError "Condition not met after 1.0s")
  /\ (fst (run adjusted) = fst (run world0)
      /\ same_but_wall (snd (run world0)) (snd (run adjusted)))
  /\ wall (snd (run world0)) = 1.5%float
  /\ wall (snd (run adjusted)) = 0.75%float.
Proof.
  cbv zeta.
  destruct (wait_until_timeout_fault float_str never 1 0.75
              "Condition not met" world0 8 2) as (Htext & Hwall).
  - reflexivity.
  - intros m Hm. destruct m as [|[|m]]; [reflexivity..|lia].
  - reflexivity.
  - intros m Hm. reflexivity.
  - lia.
  - split; [exact Htext|]. split.
    + apply Hwall. repeat split.
    + split; reflexivity.
Defined.

(** C6 as the specification words it fails: with [timeout = 1] and
    [interval = 0.75] the call fails 1.5 seconds after it began, and the
    fault's text gives the configured 1.0, not the 1.5 that went by. *)
Lemma wait_until_fault_elapsed_counterexample :
  let run := wait_until float_str 8 never 1 0.75 "Condition not met" in
  let elapsed := (mono (snd (run world0)) - mono world0)%float in
  elapsed = 1.5%float
  /\ float_str elapsed = "1.5"%string
  /\ (exists e,
        fst (run world0) = Raise e
        /\ exc_class e = TimeoutError
        /\ exc_msg e = "Condition not met after 1.0s"%string
        /\ String.index 0 (float_str elapsed) (exc_msg e) = None
        /\ exc_msg e
           <> ("Condition not met" ++ " after " ++ float_str elapsed ++ "s")
              %string).
Proof.
  cbv zeta. split; [reflexivity|]. split; [reflexivity|].
  eexists. split; [reflexivity|]. split; [reflexivity|].
  split; [reflexivity|]. split; [reflexivity|].
  vm_compute. discriminate.
Qed.

(** C7.  When the [k]-th value the producer yields is the first to satisfy
    the predicate, and the probes up to the [k]-th begin before the
    deadline (the clock after each of the first [k-1] sleeps of
    [interval], a length [time.sleep] takes, is below [t0 + timeout]),
    [poll_until] returns that value, after exactly [k] calls of the
    producer, one per iteration, and [k-1] sleeps.  With the producer 1,
    2, 3, ... and the predicate [value == 3] it returns 3 after three
    calls. *)
Theorem poll_until_returns_first_match :
  forall (T : Type) (str_float : float -> string) (str_value : T -> string)
         (fn : nat -> Res T) (condition : T -> Res bool)
         (timeout interval : float) (message : string) (w : World)
         (fuel k : nat) (v : T),
    (1 <= k <= fuel)%nat ->
    sleeps_for w interval ->
    (forall m, (m < k)%nat ->
       in_time interval (mono w + timeout)%float (mono w) m = true) ->
    (forall m, (1 <= m < k)%nat ->
       exists u, fn (calls w + m)%nat = Ok u /\ condition u = Ok false) ->
    fn (calls w + k)%nat = Ok v -> condition v = Ok true ->
    let run :=
      poll_until str_float str_value fuel fn condition timeout interval
        message in
    fst (run w) = Ok v
    /\ calls (snd (run w)) = (calls w + k)%nat
    /\ call_count (run_events run w) = k
    /\ sleep_count (run_events run w) = (k - 1)%nat.
Proof.
  intros T str_float str_value fn condition timeout interval message w
         fuel k v Hk Hs Htime Hpend Hv Hc run.
  destruct (b64_polling_match_at fn condition (sleep interval) interval
              (mono w + timeout)%float fuel w k None v Hk
              (b64_sleep_pauses interval w Hs) Htime)
    as (w' & evs & Hrun & Hcalls & Ht & Hcc & Hsl); [|exact Hv|exact Hc|].
  { intros m Hm. destruct (Hpend m Hm) as (u & Hu & Hcu).
    rewrite Hu. exact Hcu. }
  unfold run_events, run, poll_until, bind, monotonic.
  rewrite b64_poll_until_loop_as_polling, Hrun. cbn [fst snd ret].
  rewrite (b64_events_since_app _ _ _ Ht).
  rewrite b64_call_count_app, b64_sleep_count_app. unfold sleep_count at 1.
  rewrite Hcc, Hsl, repeat_length. cbn.
  repeat split; try assumption; lia.
Qed.

Lemma poll_until_returns_first_match_witness :
  let run :=
    poll_until float_str str_int 8 counting (equals 3) 30 1
      "Polling condition not met" in
  fst (run world0) = Ok 3
  /\ calls (snd (run world0)) = 3%nat
  /\ call_count (run_events run world0) = 3%nat
  /\ sleep_count (run_events run world0) = 2%nat.
Proof.
  apply (poll_until_returns_first_match Z float_str str_int counting
           (equals 3) 30 1 "Polling condition not met" world0 8 3 3).
  - lia.
  - reflexivity.
  - intros m Hm. destruct m as [|[|[|m]]]; [reflexivity..|lia].
  - intros m Hm. exists (Z.of_nat m). split; [reflexivity|].
    unfold equals. destruct (Z.eqb_spec (Z.of_nat m) 3) as [E|_];
      [lia|reflexivity].
  - reflexivity.
  - reflexivity.
Defined.




Example poll_until_timeout_text :
  fst (poll_until float_str str_int 8 counting (equals 7) 2.5 1
         "Polling condition not met" world0)
  = Raise (mkExn TimeoutError
             "Polling condition not met after 2.5s. Last result: 3").
Proof. reflexivity. Qed.

(** C9.  A fault of the predicate or of the producer goes straight
    through the polling helpers.  When the first [k-1] probes are pending
    (the predicate said false) and the [k]-th probe, begun before the
    deadline like those before it, raises [e] (in the callable itself,
    in the coroutine it handed back, or in the predicate put to the
    produced value), each of [wait_until], [poll_until],
    [async_wait_until] and [async_poll_until] raises that same [e]; the
    faulting call is the last thing the helper did, after [k-1] earlier
    calls: it is not called again.  Between the probes the helper pauses
    for [interval]: a length [time.sleep] takes, for the first two; one
    after which the timer of [asyncio.sleep] fires, for the other two. *)
Theorem polling_propagates_faults :
  forall (T : Type) (str_float : float -> string) (str_value : T -> string)
         (timeout interval : float) (message : string) (w : World)
         (fuel k : nat) (e : Exn),
    (1 <= k <= fuel)%nat ->
    (forall m, (m < k)%nat ->
       in_time interval (mono w + timeout)%float (mono w) m = true) ->
    (forall condition : nat -> Res bool,
       sleeps_for w interval ->
       (forall m, (1 <= m < k)%nat -> condition (calls w + m)%nat = Ok false) ->
       condition (calls w + k)%nat = Raise e ->
       let run :=
         wait_until str_float fuel condition timeout interval message in
       fst (run w) = Raise e
       /\ exists evs, run_events run w = evs ++ [EvCall]
                      /\ call_count evs = (k - 1)%nat)
    /\ (forall (fn : nat -> Res T) (condition : T -> Res bool),
       sleeps_for w interval ->
       (forall m, (1 <= m < k)%nat ->
          check condition (fn (calls w + m)%nat) = Ok false) ->
       check condition (fn (calls w + k)%nat) = Raise e ->
       let run :=
         poll_until str_float str_value fuel fn condition timeout interval
           message in
       fst (run w) = Raise e
       /\ exists evs, run_events run w = evs ++ [EvCall]
                      /\ call_count evs = (k - 1)%nat)
    /\ (forall condition : nat -> Res (Awaitable bool),
       timer_fires w interval ->
       (forall m, (1 <= m < k)%nat ->
          settle (condition (calls w + m)%nat) = Ok false) ->
       settle (condition (calls w + k)%nat) = Raise e ->
       let run :=
         async_wait_until str_float fuel condition timeout interval message in
       fst (run w) = Raise e
       /\ exists evs, run_events run w = evs ++ [EvCall]
                      /\ call_count evs = (k - 1)%nat)
    /\ (forall (fn : nat -> Res (Awaitable T)) (condition : T -> Res bool),
       timer_fires w interval ->
       (forall m, (1 <= m < k)%nat ->
          check condition (settle (fn (calls w + m)%nat)) = Ok false) ->
       check condition (settle (fn (calls w + k)%nat)) = Raise e ->
       let run :=
         async_poll_until str_float str_value fuel fn condition timeout
           interval message in
       fst (run w) = Raise e
       /\ exists evs, run_events run w = evs ++ [EvCall]
                      /\ call_count evs = (k - 1)%nat).
Proof.
  intros T str_float str_value timeout interval message w fuel k e Hk Htime.
  assert (Hloop : forall (X : Type) (probe : nat -> Res X)
                         (condition : X -> Res bool) (pause : M unit),
            pauses_for pause interval w ->
            (forall m, (1 <= m < k)%nat ->
               check condition (probe (calls w + m)%nat) = Ok false) ->
            check condition (probe (calls w + k)%nat) = Raise e ->
            exists w' evs,
              polling_loop fuel probe condition pause
                (mono w + timeout)%float None w
              = (Raise e, w')
              /\ trace w' = trace w ++ evs ++ [EvCall]
              /\ call_count evs = (k - 1)%nat).
  { intros X probe condition pause Hp Hpend Hraise.
    destruct (b64_polling_fault_at probe condition pause interval
                (mono w + timeout)%float fuel w k None e Hk Hp Htime Hpend
                Hraise)
      as (w' & evs & Hrun & Ht & Hcc & _).
    exists w', evs. repeat split; assumption. }
  split; [|split; [|split]].
  - intros condition Hs Hpend Hraise run.
    destruct (Hloop bool condition (fun b => Ok b) (sleep interval)
                (b64_sleep_pauses interval w Hs))
      as (w' & evs & Hrun & Ht & Hcc).
    { intros m Hm. rewrite b64_check_id. now apply Hpend. }
    { rewrite b64_check_id. exact Hraise. }
    unfold run_events, run, wait_until, bind, monotonic.
    rewrite (b64_wait_until_loop_as_polling _ _ _ _ None), Hrun.
    cbn [forget fst snd]. split; [reflexivity|].
    exists evs. split; [now apply b64_events_since_app | exact Hcc].
  - intros fn condition Hs Hpend Hraise run.
    destruct (Hloop T fn condition (sleep interval)
                (b64_sleep_pauses interval w Hs) Hpend Hraise)
      as (w' & evs & Hrun & Ht & Hcc).
    unfold run_events, run, poll_until, bind, monotonic.
    rewrite b64_poll_until_loop_as_polling, Hrun.
    cbn [fst snd]. split; [reflexivity|].
    exists evs. split; [now apply b64_events_since_app | exact Hcc].
  - intros condition Hf Hpend Hraise run.
    destruct (Hloop bool (fun m => settle (condition m)) (fun b => Ok b)
                (async_sleep interval) (b64_async_sleep_pauses interval w Hf))
      as (w' & evs & Hrun & Ht & Hcc).
    { intros m Hm. rewrite b64_check_id. now apply Hpend. }
    { rewrite b64_check_id. exact Hraise. }
    unfold run_events, run, async_wait_until, bind, loop_time, monotonic.
    rewrite (b64_async_wait_until_loop_as_polling _ _ _ _ None), Hrun.
    cbn [forget fst snd]. split; [reflexivity|].
    exists evs. split; [now apply b64_events_since_app | exact Hcc].
  - intros fn condition Hf Hpend Hraise run.
    destruct (Hloop T (fun m => settle (fn m)) condition
                (async_sleep interval) (b64_async_sleep_pauses interval w Hf)
                Hpend Hraise)
      as (w' & evs & Hrun & Ht & Hcc).
    unfold run_events, run, async_poll_until, bind, loop_time, monotonic.
    rewrite b64_async_poll_until_loop_as_polling, Hrun.
    cbn [fst snd]. split; [reflexivity|].
    exists evs. split; [now apply b64_events_since_app | exact Hcc].
Qed.

Lemma polling_propagates_faults_witness :
  (let run :=
     wait_until float_str 8 (pending_then_raise 1 false boom) 30 1
       "Condition not met" in
   fst (run world0) = Raise boom
   /\ exists evs, run_events run world0 = evs ++ [EvCall]
                  /\ call_count evs = 1%nat)
  /\ (let run :=
        poll_until float_str str_int 8 (pending_then_raise 1 0 boom)
          (equals 3) 30 1 "Polling condition not met" in
      fst (run world0) = Raise boom
      /\ exists evs, run_events run world0 = evs ++ [EvCall]
                     /\ call_count evs = 1%nat)
  /\ (let run :=
        async_wait_until float_str 8
          (coroutine_script (pending_then_raise 1 false boom)) 30 1
          "Async condition not met" in
      fst (run world0) = Raise boom
      /\ exists evs, run_events run world0 = evs ++ [EvCall]
                     /\ call_count evs = 1%nat)
  /\ (let run :=
        async_poll_until float_str str_int 8 (coroutine_script counting)
          (raising_at 2 boom) 30 1 "Async polling condition not met" in
      fst (run world0) = Raise boom
      /\ exists evs, run_events run world0 = evs ++ [EvCall]
                     /\ call_count evs = 1%nat).
Proof.
  assert (Htime : forall m, (m < 2)%nat ->
            in_time 1 (mono world0 + 30)%float (mono world0) m = true)
    by (intros m Hm; destruct m as [|[|m]]; [reflexivity..|lia]).
  destruct (polling_propagates_faults Z float_str str_int 30 1
              "Condition not met" world0 8 2 boom ltac:(lia) Htime)
    as (Hwait & _).
  destruct (polling_propagates_faults Z float_str str_int 30 1
              "Polling condition not met" world0 8 2 boom ltac:(lia) Htime)
    as (_ & Hpoll & _).
  destruct (polling_propagates_faults Z float_str str_int 30 1
              "Async condition not met" world0 8 2 boom ltac:(lia) Htime)
    as (_ & _ & Hawait & _).
  destruct (polling_propagates_faults Z float_str str_int 30 1
              "Async polling condition not met" world0 8 2 boom ltac:(lia)
              Htime)
    as (_ & _ & _ & Hapoll).
  assert (Hone : forall m, (1 <= m < 2)%nat -> m = 1%nat) by (intros; lia).
  split; [|split; [|split]].
  - apply (Hwait (pending_then_raise 1 false boom));
      [reflexivity| |reflexivity].
    intros m Hm. rewrite (Hone m Hm). reflexivity.
  - apply (Hpoll (pending_then_raise 1 0 boom) (equals 3));
      [reflexivity| |reflexivity].
    intros m Hm. rewrite (Hone m Hm). reflexivity.
  - apply (Hawait (coroutine_script (pending_then_raise 1 false boom)));
      [split; reflexivity| |reflexivity].
    intros m Hm. rewrite (Hone m Hm). reflexivity.
  - apply (Hapoll (coroutine_script counting) (raising_at 2 boom));
      [split; reflexivity| |reflexivity].
    intros m Hm. rewrite (Hone m Hm). reflexivity.
Defined.

(** ** The polling helpers: further properties *)

(** X9.  [wait_until] returns as soon as the predicate is true: when the
    first [k-1] evaluations are false and the [k]-th, begun before the
    deadline like those before it, is true, it returns after exactly [k]
    evaluations and [k-1] sleeps of [interval] each (a length
    [time.sleep] takes).  With a predicate that is already true
    ([k = 1]) it returns at once, without sleeping. *)
Theorem wait_until_returns_on_first_true :
  forall (str_float : float -> string) (condition : nat -> Res bool)
         (timeout interval : float) (message : string) (w : World)
         (fuel k : nat),
    (1 <= k <= fuel)%nat ->
    sleeps_for w interval ->
    (forall m, (m < k)%nat ->
       in_time interval (mono w + timeout)%float (mono w) m = true) ->
    (forall m, (1 <= m < k)%nat -> condition (calls w + m)%nat = Ok false) ->
    condition (calls w + k)%nat = Ok true ->
    let run := wait_until str_float fuel condition timeout interval message in
    fst (run w) = Ok tt
    /\ call_count (run_events run w) = k
    /\ sleeps (run_events run w) = repeat interval (k - 1)
    /\ (k = 1%nat -> run w = (Ok tt, called w)).
Proof.
  intros str_float condition timeout interval message w fuel k
         Hk Hs Htime Hpend Htrue run.
  destruct (b64_polling_match_at condition (fun b => Ok b) (sleep interval)
              interval (mono w + timeout)%float fuel w k None true Hk
              (b64_sleep_pauses interval w Hs) Htime)
    as (w' & evs & Hrun & Hcalls & Ht & Hcc & Hsl);
    [intros m Hm; rewrite b64_check_id; now apply Hpend
    |exact Htrue|reflexivity|].
  assert (Hres : run w = (Ok tt, w')).
  { unfold run, wait_until, bind, monotonic.
    rewrite (b64_wait_until_loop_as_polling _ _ _ _ None), Hrun.
    reflexivity. }
  unfold run_events. rewrite Hres. cbn [fst snd].
  rewrite (b64_events_since_app _ _ _ Ht).
  rewrite b64_call_count_app, b64_sleeps_app, Hcc, Hsl. cbn.
  rewrite app_nil_r.
  split; [reflexivity|]. split; [lia|]. split; [reflexivity|].
  intros ->. f_equal.
  destruct fuel as [|fuel]; [lia|].
  rewrite (b64_polling_return condition (fun b => Ok b) (sleep interval)
             (mono w + timeout)%float fuel None w true) in Hrun.
  - congruence.
  - apply (Htime 0%nat). lia.
  - rewrite Nat.add_1_r in Htrue. exact Htrue.
  - reflexivity.
Qed.

Lemma wait_until_returns_on_first_true_witness :
  let run :=
    wait_until float_str 8 (fun j => Ok (3 <=? j)%nat) 30 0.5
      "Condition not met" in
  fst (run world0) = Ok tt
  /\ call_count (run_events run world0) = 3%nat
  /\ sleeps (run_events run world0) = [0.5; 0.5]%float.
Proof.
  destruct (wait_until_returns_on_first_true float_str
              (fun j => Ok (3 <=? j)%nat) 30 0.5 "Condition not met"
              world0 8 3) as (H1 & H2 & H3 & _).
  - lia.
  - reflexivity.
  - intros m Hm. destruct m as [|[|[|m]]]; [reflexivity..|lia].
  - intros m Hm. cbn [world0 calls Nat.add].
    destruct (Nat.leb_spec 3 m) as [Hge|_]; [lia|reflexivity].
  - reflexivity.
  - split; [exact H1|]. split; [exact H2|exact H3].
Defined.

Section PollingBound.
Context {T : Type}.
Variable probe : nat -> Res T.
Variable condition : T -> Res bool.
Variables interval deadline : float.

(** When the clock is not below the deadline after [r] sleeps, the loop
    makes at most [r] calls, and ends within [r] iterations unless a
    callable hangs. *)
Lemma b64_polling_bounded fuel : forall (r : nat) last w res,
  in_time interval deadline (mono w) r = false ->
  polling_loop fuel probe condition (sleep interval) deadline last w = res ->
  exists evs,
    trace (snd res) = trace w ++ evs
    /\ (call_count evs <= r)%nat
    /\ ((r < fuel)%nat ->
        (forall m, probe m <> Hang) -> (forall v, condition v <> Hang) ->
        fst res <> Hang).
Proof.
  induction fuel as [|fuel IH]; intros r last w res Hd Hres.
  - cbn in Hres. subst res. exists []. cbn. rewrite app_nil_r.
    repeat split; lia.
  - cbn [polling_loop] in Hres.
    unfold bind, monotonic, invoke, pure_call, ret in Hres.
    cbn [fst snd] in Hres.
    destruct (mono w <? deadline)%float eqn:Hnow.
    + assert (Hr : exists r', r = S r').
      { destruct r as [|r']; [|now exists r'].
        unfold in_time in Hd. cbn [clock_after] in Hd. congruence. }
      destruct Hr as (r' & ->).
      destruct (probe (S (calls w))) as [u| |] eqn:Hf.
      * destruct (condition u) as [[|]| |] eqn:Hc.
        -- subst res. exists [EvCall]. cbn. repeat split; [lia|discriminate].
        -- rewrite b64_sleep_eq in Hres.
           destruct (sleep_refusal (env (called w)) interval).
           ++ subst res. exists [EvCall]. cbn.
              repeat split; [lia|discriminate].
           ++ destruct (IH r' (Some u) (slept interval (called w)) res)
                as (evs & Ht & Hcc & Hang'); [exact Hd|exact Hres|].
              exists ([EvCall; EvSleep interval] ++ evs).
              rewrite Ht. cbn [slept called trace]. rewrite <- !app_assoc.
              split; [reflexivity|]. split.
              ** rewrite b64_call_count_app. cbn. lia.
              ** intros Hfuel Hfn Hcond.
                 apply Hang'; [lia|exact Hfn|exact Hcond].
        -- subst res. exists [EvCall]. cbn. repeat split; [lia|discriminate].
        -- subst res. exists [EvCall]. cbn. split; [reflexivity|].
           split; [lia|]. intros _ _ Hcond. exfalso.
           exact (Hcond u Hc).
      * subst res. exists [EvCall]. cbn. repeat split; [lia|discriminate].
      * subst res. exists [EvCall]. cbn. split; [reflexivity|].
        split; [lia|]. intros _ Hfn _. exfalso. exact (Hfn _ Hf).
    + subst res. exists []. cbn. rewrite app_nil_r.
      repeat split; [lia|discriminate].
Qed.

End PollingBound.

(** X12.  The polling loops are bounded by the clock.  When the clock
    is not below the deadline after [r] sleeps of [interval] (the reading
    [((t0 + interval) + interval) ...], each sum rounded), then, whatever
    the producer and the predicate do, [poll_until] and [wait_until] call
    them at most [r] times; and as long as the callables themselves come
    back, the helper ends within [r] iterations: with a value, with a
    fault of a callable or of [time.sleep], or with its [TimeoutError]. *)
Theorem polling_is_bounded :
  forall (T : Type) (str_float : float -> string) (str_value : T -> string)
         (timeout interval : float) (message : string) (w : World)
         (fuel r : nat),
    in_time interval (mono w + timeout)%float (mono w) r = false ->
    (forall (fn : nat -> Res T) (condition : T -> Res bool),
       let run :=
         poll_until str_float str_value fuel fn condition timeout interval
           message in
       (call_count (run_events run w) <= r)%nat
       /\ ((r < fuel)%nat ->
           (forall m, fn m <> Hang) -> (forall v, condition v <> Hang) ->
           fst (run w) <> Hang))
    /\ (forall condition : nat -> Res bool,
          let run :=
            wait_until str_float fuel condition timeout interval message in
          (call_count (run_events run w) <= r)%nat
          /\ ((r < fuel)%nat ->
              (forall m, condition m <> Hang) ->
              fst (run w) <> Hang)).
Proof.
  intros T str_float str_value timeout interval message w fuel r Hd.
  split.
  - intros fn condition run.
    destruct (b64_polling_bounded fn condition interval
                (mono w + timeout)%float fuel r None w _ Hd eq_refl)
      as (evs & Ht & Hcc & Hhang).
    unfold run_events, run. rewrite b64_poll_until_world.
    rewrite (b64_events_since_app _ _ _ Ht). split; [exact Hcc|].
    intros Hfuel Hfn Hcond. specialize (Hhang Hfuel Hfn Hcond).
    unfold poll_until, bind, monotonic.
    rewrite b64_poll_until_loop_as_polling.
    destruct (polling_loop fuel fn condition (sleep interval)
                (mono w + timeout)%float None w) as [[[v|l]|e|] w'];
      cbn in Hhang |- *; try discriminate. congruence.
  - intros condition run.
    destruct (b64_polling_bounded condition (fun b => Ok b) interval
                (mono w + timeout)%float fuel r None w _ Hd eq_refl)
      as (evs & Ht & Hcc & Hhang).
    unfold run_events, run. rewrite b64_wait_until_world.
    rewrite (b64_events_since_app _ _ _ Ht). split; [exact Hcc|].
    intros Hfuel Hcond.
    specialize (Hhang Hfuel Hcond ltac:(discriminate)).
    unfold wait_until, bind, monotonic.
    rewrite (b64_wait_until_loop_as_polling _ _ _ _ None). unfold forget.
    destruct (polling_loop fuel condition (fun b => Ok b) (sleep interval)
                (mono w + timeout)%float None w) as [[[v|l]|e|] w'];
      cbn in Hhang |- *; try discriminate. congruence.
Qed.

(** With a timeout of 1.0 and an interval of 0.1 the clock is below the
    deadline after ten sleeps (at 0.9999999999999999) and not after
    eleven: the bound is 11. *)
Lemma polling_is_bounded_witness :
  let run :=
    poll_until float_str str_int 20 counting (equals 70) 1 tenth
      "Polling condition not met" in
  in_time tenth (mono world0 + 1)%float (mono world0) 10 = true
  /\ (call_count (run_events run world0) <= 11)%nat
  /\ fst (run world0) <> Hang.
Proof.
  cbv zeta. split; [reflexivity|].
  destruct (polling_is_bounded Z float_str str_int 1 tenth
              "Polling condition not met" world0 20 11) as (Hpoll & _);
    [reflexivity|].
  destruct (Hpoll counting (equals 70)) as (Hle & Hend).
  split; [exact Hle|]. apply Hend.
  - lia.
  - discriminate.
  - discriminate.
Defined.
